(** * spread: the command-line driver (cmd/spread/main.go)

    A shallow embedding of [firstErr], [downloadDir], [run] and [main].
    Calls that leave the file (crypto/rand, the spread package, the file
    system, the tar child process) are answered by an explicit environment
    and recorded in a trace of events, so that statements of the form
    "X happens before Y" or "Y is never called" are statements about lists.
    The two threads at the end of [run] (the main thread blocked in
    [runner.Wait()] and the goroutine that waits for an interrupt) are a
    small interleaving transition system driven by a schedule. *)

From Stdlib Require Import List String Ascii Bool Arith ZArith NArith Lia.
From Stdlib.Strings Require Import Byte.
Import ListNotations.

Local Open Scope string_scope.
Local Open Scope list_scope.

(* ------------------------------------------------------------------ *)
(** ** Go values *)

(** A Go [error] is observed through its message; [nil] is [None]. *)
Definition error := string.

(** A Go call returning [(T, error)] whose caller returns on [err != nil]. *)
Inductive result (A : Type) : Type :=
| Ok (a : A)
| Err (e : error).
Arguments Ok {A} a.
Arguments Err {A} e.

(** [fmt.Errorf(prefix + ": %v", err)] *)
Definition Errorf (prefix : string) (err : error) : error :=
  (prefix ++ ": " ++ err)%string.

(* ------------------------------------------------------------------ *)
(** ** Function bodies with early return

    A statement of a Go function body either lets control continue with a
    value or makes the function return an [error] (possibly [nil]); either
    way it leaves a trace of the outside calls it made. *)

Inductive Outcome (A : Type) : Type :=
| Next (a : A)
| Return (e : option error).
Arguments Next {A} a.
Arguments Return {A} e.

Definition Act (E A : Type) : Type := (list E * Outcome A)%type.

Definition pure {E A} (a : A) : Act E A := ([], Next a).

Definition ret {E A} (e : option error) : Act E A := ([], Return e).

Definition bind {E A B} (m : Act E A) (k : A -> Act E B) : Act E B :=
  match m with
  | (t, Next a) => let (t', o) := k a in (t ++ t', o)
  | (t, Return e) => (t, Return e)
  end.

(** An outside call: the event is recorded, the environment's answer is
    the value. *)
Definition call {E A} (ev : E) (answer : A) : Act E A := ([ev], Next answer).

(** [if err != nil { return wrap(err) }] *)
Definition check {E} (err : option error) (wrap : error -> error)
  : Act E unit :=
  match err with
  | Some e => ret (Some (wrap e))
  | None => pure tt
  end.

(** [v, err := f(); if err != nil { return err }] *)
Definition try {E A} (r : result A) : Act E A :=
  match r with
  | Ok a => pure a
  | Err e => ret (Some e)
  end.

(** The trace of a body and the error it returned. A body that falls off
    its end without [return] has no counterpart in Go for a function with
    a result; it is read as returning [nil]. *)
Definition returned {E} (m : Act E Empty_set) : list E * option error :=
  match m with
  | (t, Return e) => (t, e)
  | (t, Next a) => match a with end
  end.

Declare Scope act_scope.
Delimit Scope act_scope with act.
Notation "x <- m ;; k" := (bind m (fun x => k))
  (at level 61, m at next level, right associativity) : act_scope.
Notation "m ;;; k" := (bind m (fun _ => k))
  (at level 61, right associativity) : act_scope.

(* ------------------------------------------------------------------ *)
(** ** strings.Split(s, ":") *)

(** [strings.Split] with a one-byte separator: the parts between the
    separators, in order; a string without separator is its own single
    part, and so is the empty string. *)
Fixpoint Split (sep : ascii) (s : string) : list string :=
  match s with
  | EmptyString => [EmptyString]
  | String c rest =>
      if Ascii.eqb c sep then EmptyString :: Split sep rest
      else match Split sep rest with
           | part :: parts => String c part :: parts
           | [] => [String c EmptyString]
           end
  end.

Fixpoint Count (sep : ascii) (s : string) : nat :=
  match s with
  | EmptyString => 0
  | String c rest => (if Ascii.eqb c sep then 1 else 0) + Count sep rest
  end.

Definition colon : ascii := ":"%char.

(* ------------------------------------------------------------------ *)
(** ** fmt.Sprintf("%x", buf) on a byte slice *)

Definition ldigits : string := "0123456789abcdefx".

Definition digit (n : N) : ascii :=
  match String.get (N.to_nat n) ldigits with
  | Some c => c
  | None => "0"%char
  end.

(** Two digits per byte: [digits[c>>4]], [digits[c&0xF]]. *)
Fixpoint Sprintf_x (buf : list byte) : string :=
  match buf with
  | [] => EmptyString
  | c :: rest =>
      String (digit (N.shiftr (Byte.to_N c) 4))
        (String (digit (N.land (Byte.to_N c) 15)) (Sprintf_x rest))
  end.

Definition is_lower_hex (c : ascii) : bool :=
  let n := nat_of_ascii c in
  ((48 <=? n)%nat && (n <=? 57)%nat) || ((97 <=? n)%nat && (n <=? 102)%nat).

(** [make([]byte, n)] *)
Definition make_bytes (n : nat) : list byte := repeat x00 n.

(** Writing [data] into the slice [buf] in place: the slice keeps its
    length, bytes beyond [data] keep their old value. *)
Fixpoint fill (buf data : list byte) : list byte :=
  match buf, data with
  | [], _ => []
  | b :: buf', [] => b :: buf'
  | _ :: buf', d :: data' => d :: fill buf' data'
  end.

(* ------------------------------------------------------------------ *)
(** ** firstErr *)

Fixpoint firstErr (errs : list (option error)) : option error :=
  match errs with
  | [] => None
  | Some err :: _ => Some err
  | None :: rest => firstErr rest
  end.

(* ------------------------------------------------------------------ *)
(** ** downloadDir *)

(** What [downloadDir] does to the outside world. *)
Inductive IOEvent : Type :=
| IoMkdirAll (path : string) (perm : N)
| IoPipe
| IoCmdStart (name : string) (args : list string) (dir : string)
| IoRecvTar (source : string) (excludes : list string)
| IoPipeClose
| IoCmdWait.

(** The operating system as [downloadDir] sees it. *)
Record OS : Type := {
  MkdirAll : string -> N -> option error;
  cmd_Start : string -> list string -> string -> option error;
  cmd_Wait : option error
}.

(** [*spread.Client]: the one method this file calls. *)
Record Client : Type := {
  RecvTar : string -> list string -> option error
}.

Definition IO (A : Type) : Type := OS -> (list IOEvent * A)%type.

Definition downloadDir (downloadString : string) (client : Client)
  : IO (option error) :=
  fun os => returned (
    match Split colon downloadString with
    | [source; dest] =>
        (err <- call (IoMkdirAll dest 493%N) (MkdirAll os dest 493%N) ;;
         check err (Errorf "cannot create artifacts directory") ;;;
         call IoPipe tt ;;;
         err <- call (IoCmdStart "tar" ["xJ"] dest)
                     (cmd_Start os "tar" ["xJ"] dest) ;;
         check err (Errorf "cannot start unpacking tar") ;;;
         err <- call (IoRecvTar source []) (RecvTar client source []) ;;
         call IoPipeClose tt ;;;
         terr <- call IoCmdWait (cmd_Wait os) ;;
         ret (firstErr [err; terr]))%act
    | _ => ret None
    end).

(* ------------------------------------------------------------------ *)
(** ** The spread package as this file uses it *)

(** [spread.Job]: only [Name] is read here. *)
Record Job : Type := { Name : string }.

(** [spread.Filter], an interface with one method. *)
Record Filter : Type := { Pass : Job -> bool }.

(** [spread.Options]; a [nil] interface value in [Filter] is [None]. *)
Module Options.
Record t : Type := {
  Password : string;
  Filter : option Filter;
  Reuse : bool;
  ReusePid : Z;
  Resend : bool;
  Debug : bool;
  NoDebug : bool;
  Shell : bool;
  ShellBefore : bool;
  ShellAfter : bool;
  Abend : bool;
  Restore : bool;
  Discard : bool;
  Artifacts : string;
  Logs : string;
  Seed : Z;
  Repeat : Z;
  GarbageCollect : bool
}.

(** [options.Reuse = v] *)
Definition set_Reuse (v : bool) (o : t) : t :=
  {| Password := Password o; Filter := Filter o; Reuse := v;
     ReusePid := ReusePid o; Resend := Resend o; Debug := Debug o;
     NoDebug := NoDebug o; Shell := Shell o;
     ShellBefore := ShellBefore o; ShellAfter := ShellAfter o;
     Abend := Abend o; Restore := Restore o; Discard := Discard o;
     Artifacts := Artifacts o; Logs := Logs o; Seed := Seed o;
     Repeat := Repeat o; GarbageCollect := GarbageCollect o |}.
End Options.

(** The part of [spread.Project] that [Load] fills in: here, what its
    [Jobs] method answers. *)
Record Catalog : Type := {
  Jobs : Options.t -> result (list Job)
}.

(** The type of [Project.PreRestoreProject]. Its third argument is the
    project itself, passed as the catalog. *)
Definition Hook : Type := Client -> Job -> Catalog -> IO (option error).

(** [*spread.Project]; a [nil] func value is [None]. *)
Record Project : Type := {
  catalog : Catalog;
  PreRestoreProject : option Hook
}.

(** [project.PreRestoreProject = h] *)
Definition set_PreRestoreProject (h : Hook) (p : Project) : Project :=
  {| catalog := catalog p; PreRestoreProject := Some h |}.

(** [*spread.Runner]: what [Wait] returns may depend on whether [Stop]
    was called before. *)
Record Runner : Type := {
  Wait : bool -> option error
}.

(* ------------------------------------------------------------------ *)
(** ** Command line and environment *)

(** The flag variables after [flag.Parse()], and [flag.Args()]. *)
Module flag.
Record t : Type := {
  args : list string;
  verbose : bool;
  vverbose : bool;
  list : bool;
  pass : string;
  reuse : bool;
  reusePid : Z;
  resend : bool;
  debug : bool;
  noDebug : bool;
  shell : bool;
  shellBefore : bool;
  shellAfter : bool;
  abend : bool;
  restore : bool;
  discard : bool;
  artifacts : string;
  logs : string;
  seed : Z;
  repeat : Z;
  garbageCollect : bool;
  download : string
}.
End flag.

(** The package variable [download] is the pointer that [flag.String]
    returned; [flag.String] allocates the variable, so it is not [nil]. *)
Definition download_ptr (f : flag.t) : option string :=
  Some (flag.download f).

(** The outside of [run]: crypto/rand and the spread package.
    [rand_Read n] answers [rand.Read] on a slice of length [n] with the
    bytes written and the error. *)
Record World : Type := {
  rand_Read : nat -> list byte * option error;
  NewFilter : list string -> result (option Filter);
  Load : string -> result Project;
  Start : Project -> Options.t -> result Runner
}.

Inductive Event : Type :=
| EvMrandSeed
| EvSetLogger
| EvSetVerbose (b : bool)
| EvSetDebug (b : bool)
| EvRandRead (n : nat)
| EvNewFilter (patterns : list string)
| EvLoad (path : string)
| EvJobs (p : Project) (o : Options.t)
| EvPrintln (s : string)
| EvStart (p : Project) (o : Options.t)
| EvNotify
| EvGo
| EvInterrupt
| EvStop
| EvWaitCall
| EvWaitReturn (e : option error)
| EvStderr (s : string)
| EvExit (code : Z).

(* ------------------------------------------------------------------ *)
(** ** run: the sequential part *)

Definition conflict : error :=
  "cannot have more than one of -debug, -shell, -shell-before/after, -abend, and -restore".

(** The loop over the run-mode selectors, with its variable [other]. *)
Fixpoint modeLoop (bs : list bool) (other : bool) : option error :=
  match bs with
  | [] => None
  | b :: rest =>
      if b && other then Some conflict
      else modeLoop rest (other || b)
  end.

(** The slice the loop ranges over. *)
Definition selectors (f : flag.t) : list bool :=
  [flag.debug f; flag.shell f; flag.shellBefore f || flag.shellAfter f;
   flag.abend f; flag.restore f].

Definition modeCheck (f : flag.t) : option error :=
  modeLoop (selectors f) false.

(** [if e != nil { return e }] *)
Definition leave_on {E} (e : option error) : Act E unit :=
  check e (fun err => err).

Definition mkPassword (f : flag.t) (w : World) : Act Event string :=
  (if String.eqb (flag.pass f) "" then
     r <- call (EvRandRead 8) (rand_Read w 8) ;;
     let buf := fill (make_bytes 8) (fst r) in
     check (snd r) (Errorf "cannot generate random password") ;;;
     pure (Sprintf_x buf)
   else pure (flag.pass f))%act.

Definition mkFilter (f : flag.t) (w : World) : Act Event (option Filter) :=
  (if (0 <? List.length (flag.args f))%nat then
     r <- call (EvNewFilter (flag.args f)) (NewFilter w (flag.args f)) ;;
     try r
   else pure None)%act.

Definition mkOptions (f : flag.t) (password : string)
    (filter : option Filter) : Options.t :=
  {| Options.Password := password;
     Options.Filter := filter;
     Options.Reuse := flag.reuse f;
     Options.ReusePid := flag.reusePid f;
     Options.Resend := flag.resend f;
     Options.Debug := flag.debug f;
     Options.NoDebug := flag.noDebug f;
     Options.Shell := flag.shell f;
     Options.ShellBefore := flag.shellBefore f;
     Options.ShellAfter := flag.shellAfter f;
     Options.Abend := flag.abend f;
     Options.Restore := flag.restore f;
     Options.Discard := flag.discard f;
     Options.Artifacts := flag.artifacts f;
     Options.Logs := flag.logs f;
     Options.Seed := flag.seed f;
     Options.Repeat := flag.repeat f;
     Options.GarbageCollect := flag.garbageCollect f |}.

(** [for _, job := range jobs { fmt.Println(job.Name) }] *)
Fixpoint printJobs (jobs : list Job) : Act Event unit :=
  match jobs with
  | [] => pure tt
  | job :: rest => (call (EvPrintln (Name job)) tt ;;; printJobs rest)%act
  end.

(** [if options.Discard && options.ReusePid == 0 { options.Reuse = true }] *)
Definition coerceReuse (options : Options.t) : Options.t :=
  if Options.Discard options && (Options.ReusePid options =? 0)%Z
  then Options.set_Reuse true options
  else options.

(** The closure assigned to [project.PreRestoreProject]. *)
Definition downloadHook (f : flag.t) : Hook :=
  fun client job project => downloadDir (flag.download f) client.

(** [if download != nil { project.PreRestoreProject = ... }] *)
Definition installHook (f : flag.t) (project : Project) : Project :=
  match download_ptr f with
  | Some _ => set_PreRestoreProject (downloadHook f) project
  | None => project
  end.

(** [run] up to and including the [go] statement. [Return e] is a
    [return e] of [run]; [Next runner] means that [Start] succeeded, the
    signal channel is registered and the goroutine is spawned, and what
    remains is [return runner.Wait()]. *)
Definition run_seq (f : flag.t) (w : World) : Act Event Runner :=
  (call EvMrandSeed tt ;;;
   call EvSetLogger tt ;;;
   call (EvSetVerbose (flag.verbose f)) tt ;;;
   call (EvSetDebug (flag.vverbose f)) tt ;;;
   leave_on (modeCheck f) ;;;
   password <- mkPassword f w ;;
   filter <- mkFilter f w ;;
   let options := mkOptions f password filter in
   r <- call (EvLoad ".") (Load w ".") ;;
   project <- try r ;;
   if flag.list f then
     r <- call (EvJobs project options) (Jobs (catalog project) options) ;;
     jobs <- try r ;;
     printJobs jobs ;;;
     ret None
   else
     let options := coerceReuse options in
     let project := installHook f project in
     r <- call (EvStart project options) (Start w project options) ;;
     runner <- try r ;;
     call EvNotify tt ;;;
     call EvGo tt ;;;
     pure runner)%act.

(* ------------------------------------------------------------------ *)
(** ** run: the two threads after the [go] statement

    The main thread executes [return runner.Wait()]: it calls [Wait] and,
    when [Wait] comes back, returns its result. The goroutine executes
    [<-sigch; runner.Stop()]. The environment may deliver interrupts at
    any time; [signal.Notify] forwards them to [sigch], a channel with a
    buffer of one, without blocking (an interrupt that finds the buffer
    full is dropped). *)

Inductive MainPc : Type :=
| MBeforeWait
| MInWait
| MReturned (e : option error).

Inductive GoPc : Type :=
| GRecv
| GStop
| GDone.

Record Threads : Type := {
  mainPc : MainPc;
  goPc : GoPc;
  sigch : nat;
  stopped : bool;
  trace : list Event
}.

(** Who moves next: the environment, the goroutine or the main thread. *)
Inductive Action : Type :=
| Interrupt
| GoStep
| MainStep.

Definition threads0 : Threads :=
  {| mainPc := MBeforeWait; goPc := GRecv; sigch := 0; stopped := false;
     trace := [] |}.

(** One move; a thread that cannot move (blocked or finished) leaves the
    state as it is. *)
Definition step (runner : Runner) (s : Threads) (a : Action) : Threads :=
  match a with
  | Interrupt =>
      {| mainPc := mainPc s; goPc := goPc s;
         sigch := if (sigch s <? 1)%nat then S (sigch s) else sigch s;
         stopped := stopped s;
         trace := trace s ++ [EvInterrupt] |}
  | GoStep =>
      match goPc s with
      | GRecv =>
          match sigch s with
          | O => s
          | S n =>
              {| mainPc := mainPc s; goPc := GStop; sigch := n;
                 stopped := stopped s; trace := trace s |}
          end
      | GStop =>
          {| mainPc := mainPc s; goPc := GDone; sigch := sigch s;
             stopped := true; trace := trace s ++ [EvStop] |}
      | GDone => s
      end
  | MainStep =>
      match mainPc s with
      | MBeforeWait =>
          {| mainPc := MInWait; goPc := goPc s; sigch := sigch s;
             stopped := stopped s; trace := trace s ++ [EvWaitCall] |}
      | MInWait =>
          let e := Wait runner (stopped s) in
          {| mainPc := MReturned e; goPc := goPc s; sigch := sigch s;
             stopped := stopped s; trace := trace s ++ [EvWaitReturn e] |}
      | MReturned _ => s
      end
  end.

Definition steps (runner : Runner) (sched : list Action) (s : Threads)
  : Threads :=
  fold_left (step runner) sched s.

(** What the main thread has returned, if it has. *)
Definition mainResult (s : Threads) : option (option error) :=
  match mainPc s with
  | MReturned e => Some e
  | _ => None
  end.

(* ------------------------------------------------------------------ *)
(** ** run and main *)

(** [run] under a schedule for its two threads: the events so far and,
    once [run] has returned, the error it returned. *)
Definition run (f : flag.t) (w : World) (sched : list Action)
  : list Event * option (option error) :=
  match run_seq f w with
  | (t, Return e) => (t, Some e)
  | (t, Next runner) =>
      let s := steps runner sched threads0 in
      (t ++ trace s, mainResult s)
  end.

Definition newline : string := String (ascii_of_nat 10) EmptyString.

(** [main] on a command line that [flag.Parse()] accepted, leaving the
    flag variables at [f]: the events and the exit status of the process,
    once it has exited. Returning from [main] is exit status 0. *)
Definition main (f : flag.t) (w : World) (sched : list Action)
  : list Event * option Z :=
  match run f w sched with
  | (t, Some (Some err)) =>
      (t ++ [EvStderr ("error: " ++ err ++ newline)%string; EvExit 1], Some 1%Z)
  | (t, Some None) => (t, Some 0%Z)
  | (t, None) => (t, None)
  end.

(** What [flag.Parse()], the second statement of [run], does with the
    command line. It returns, and the flag variables hold [f]; or, the
    flag set of the command line being one that exits on error, it writes
    its message and the usage to stderr and ends the process there and
    then with a status of its own: 2 for a flag that is not defined or a
    value that does not parse. The text it writes is the flag package's
    and is not in the trace. *)
Inductive Parse : Type :=
| Parses (f : flag.t)
| ParseExits (status : Z).

(** [run] from its first statement: the events and, once [run] has
    returned, the error it returned. When [flag.Parse()] ends the
    process, [mrand.Seed] has been called and [run] never returns. *)
Definition run_cmd (p : Parse) (w : World) (sched : list Action)
  : list Event * option (option error) :=
  match p with
  | Parses f => run f w sched
  | ParseExits _ => ([EvMrandSeed], None)
  end.

(** The process on any command line: the events and the exit status,
    once it has exited. *)
Definition spread (p : Parse) (w : World) (sched : list Action)
  : list Event * option Z :=
  match p with
  | Parses f => main f w sched
  | ParseExits status => ([EvMrandSeed; EvExit status], Some status)
  end.

(* ------------------------------------------------------------------ *)
(** ** How the spread package reads a filter *)

(** Modelled from the spec: [Project.Jobs] lives in the spread package,
    which is outside this file. The spec has it "apply Filter: drop any
    tuple whose identity does not match", and "absence of filters must not
    be distinguished from match all downstream": a job survives when
    there is no filter or when the filter passes it. *)
Definition matches (filter : option Filter) (job : Job) : bool :=
  match filter with
  | None => true
  | Some flt => Pass flt job
  end.

(* ------------------------------------------------------------------ *)
(** ** Sample command lines and environments *)

(** Every flag at the default it is declared with. *)
Definition defaults : flag.t :=
  {| flag.args := []; flag.verbose := false; flag.vverbose := false;
     flag.list := false; flag.pass := ""; flag.reuse := false;
     flag.reusePid := 0; flag.resend := false; flag.debug := false;
     flag.noDebug := false; flag.shell := false;
     flag.shellBefore := false; flag.shellAfter := false;
     flag.abend := false; flag.restore := false; flag.discard := false;
     flag.artifacts := ""; flag.logs := ""; flag.seed := 0;
     flag.repeat := 0; flag.garbageCollect := false;
     flag.download := "" |}.

Definition with_modes (debug noDebug shell shellBefore shellAfter abend
    restore : bool) (f : flag.t) : flag.t :=
  {| flag.args := flag.args f; flag.verbose := flag.verbose f;
     flag.vverbose := flag.vverbose f; flag.list := flag.list f;
     flag.pass := flag.pass f; flag.reuse := flag.reuse f;
     flag.reusePid := flag.reusePid f; flag.resend := flag.resend f;
     flag.debug := debug; flag.noDebug := noDebug; flag.shell := shell;
     flag.shellBefore := shellBefore; flag.shellAfter := shellAfter;
     flag.abend := abend; flag.restore := restore;
     flag.discard := flag.discard f; flag.artifacts := flag.artifacts f;
     flag.logs := flag.logs f; flag.seed := flag.seed f;
     flag.repeat := flag.repeat f;
     flag.garbageCollect := flag.garbageCollect f;
     flag.download := flag.download f |}.

Definition with_noDebug (noDebug : bool) (f : flag.t) : flag.t :=
  with_modes (flag.debug f) noDebug (flag.shell f) (flag.shellBefore f)
    (flag.shellAfter f) (flag.abend f) (flag.restore f) f.

Definition with_list (l : bool) (f : flag.t) : flag.t :=
  {| flag.args := flag.args f; flag.verbose := flag.verbose f;
     flag.vverbose := flag.vverbose f; flag.list := l;
     flag.pass := flag.pass f; flag.reuse := flag.reuse f;
     flag.reusePid := flag.reusePid f; flag.resend := flag.resend f;
     flag.debug := flag.debug f; flag.noDebug := flag.noDebug f;
     flag.shell := flag.shell f; flag.shellBefore := flag.shellBefore f;
     flag.shellAfter := flag.shellAfter f; flag.abend := flag.abend f;
     flag.restore := flag.restore f; flag.discard := flag.discard f;
     flag.artifacts := flag.artifacts f; flag.logs := flag.logs f;
     flag.seed := flag.seed f; flag.repeat := flag.repeat f;
     flag.garbageCollect := flag.garbageCollect f;
     flag.download := flag.download f |}.

Definition with_discard (d : bool) (f : flag.t) : flag.t :=
  {| flag.args := flag.args f; flag.verbose := flag.verbose f;
     flag.vverbose := flag.vverbose f; flag.list := flag.list f;
     flag.pass := flag.pass f; flag.reuse := flag.reuse f;
     flag.reusePid := flag.reusePid f; flag.resend := flag.resend f;
     flag.debug := flag.debug f; flag.noDebug := flag.noDebug f;
     flag.shell := flag.shell f; flag.shellBefore := flag.shellBefore f;
     flag.shellAfter := flag.shellAfter f; flag.abend := flag.abend f;
     flag.restore := flag.restore f; flag.discard := d;
     flag.artifacts := flag.artifacts f; flag.logs := flag.logs f;
     flag.seed := flag.seed f; flag.repeat := flag.repeat f;
     flag.garbageCollect := flag.garbageCollect f;
     flag.download := flag.download f |}.

Definition with_pass (p : string) (f : flag.t) : flag.t :=
  {| flag.args := flag.args f; flag.verbose := flag.verbose f;
     flag.vverbose := flag.vverbose f; flag.list := flag.list f;
     flag.pass := p; flag.reuse := flag.reuse f;
     flag.reusePid := flag.reusePid f; flag.resend := flag.resend f;
     flag.debug := flag.debug f; flag.noDebug := flag.noDebug f;
     flag.shell := flag.shell f; flag.shellBefore := flag.shellBefore f;
     flag.shellAfter := flag.shellAfter f; flag.abend := flag.abend f;
     flag.restore := flag.restore f; flag.discard := flag.discard f;
     flag.artifacts := flag.artifacts f; flag.logs := flag.logs f;
     flag.seed := flag.seed f; flag.repeat := flag.repeat f;
     flag.garbageCollect := flag.garbageCollect f;
     flag.download := flag.download f |}.

(** [spread -shell -abend] *)
Definition shell_abend : flag.t :=
  with_modes false false true false false true false defaults.

(** [spread -no-debug-output -shell] *)
Definition noDebug_shell : flag.t :=
  with_modes false true true false false false false defaults.

(** [spread -no-debug-output -abend] *)
Definition noDebug_abend : flag.t :=
  with_modes false true false false false true false defaults.

Definition jobA : Job := {| Name := "lxd:ubuntu-16.04:tests/a" |}.
Definition jobB : Job := {| Name := "lxd:ubuntu-16.04:tests/b" |}.

Definition catalog0 : Catalog :=
  {| Jobs := fun o => Ok (filter (matches (Options.Filter o)) [jobA; jobB]) |}.

Definition project0 : Project :=
  {| catalog := catalog0; PreRestoreProject := None |}.

(** A runner whose campaign succeeds unless it was stopped. *)
Definition runner0 : Runner :=
  {| Wait := fun stopped => if stopped then Some "interrupted" else None |}.

(** A runner with a failed job. *)
Definition runner1 : Runner :=
  {| Wait := fun _ => Some "unsuccessful tasks: 1" |}.

Definition world0 : World :=
  {| rand_Read := fun n =>
       (firstn n [xde; xad; xbe; xef; x01; x23; x45; x67], None);
     NewFilter := fun _ => Ok (Some {| Pass := fun _ => true |});
     Load := fun _ => Ok project0;
     Start := fun _ _ => Ok runner0 |}.

(** The same with a random source that fails. *)
Definition world_norand : World :=
  {| rand_Read := fun _ => ([], Some "EOF");
     NewFilter := NewFilter world0;
     Load := Load world0;
     Start := Start world0 |}.

(** The same with a campaign that has a failed job. *)
Definition world_failing : World :=
  {| rand_Read := rand_Read world0;
     NewFilter := NewFilter world0;
     Load := Load world0;
     Start := fun _ _ => Ok runner1 |}.

Definition os0 : OS :=
  {| MkdirAll := fun _ _ => None;
     cmd_Start := fun _ _ _ => None;
     cmd_Wait := Some "exit status 2" |}.

Definition client0 : Client :=
  {| RecvTar := fun _ _ => Some "cannot receive tar" |}.

(* ------------------------------------------------------------------ *)
(** ** Notions the statements are written with *)

(** What [run] does before it looks at the run mode. *)
Definition prelude (f : flag.t) : list Event :=
  [EvMrandSeed; EvSetLogger; EvSetVerbose (flag.verbose f);
   EvSetDebug (flag.vverbose f)].

(** What the printing loop writes for [jobs]. *)
Definition printed (jobs : list Job) : list Event :=
  map (fun job => EvPrintln (Name job)) jobs.

(** The stages of [run_seq], one after the other. *)
Definition run_seq_stages (f : flag.t) (w : World) : Act Event Runner :=
  match modeCheck f with
  | Some e => (prelude f, Return (Some e))
  | None =>
    match mkPassword f w with
    | (t1, Return e) => (prelude f ++ t1, Return e)
    | (t1, Next password) =>
      match mkFilter f w with
      | (t2, Return e) => (prelude f ++ t1 ++ t2, Return e)
      | (t2, Next filter) =>
        let options := mkOptions f password filter in
        match Load w "." with
        | Err e => (prelude f ++ t1 ++ t2 ++ [EvLoad "."], Return (Some e))
        | Ok project =>
          if flag.list f then
            match Jobs (catalog project) options with
            | Err e =>
                (prelude f ++ t1 ++ t2 ++
                   [EvLoad "."; EvJobs project options],
                 Return (Some e))
            | Ok jobs =>
                (prelude f ++ t1 ++ t2 ++
                   [EvLoad "."; EvJobs project options] ++ printed jobs,
                 Return None)
            end
          else
            match Start w (installHook f project) (coerceReuse options) with
            | Err e =>
                (prelude f ++ t1 ++ t2 ++
                   [EvLoad ".";
                    EvStart (installHook f project) (coerceReuse options)],
                 Return (Some e))
            | Ok runner =>
                (prelude f ++ t1 ++ t2 ++
                   [EvLoad ".";
                    EvStart (installHook f project) (coerceReuse options);
                    EvNotify; EvGo],
                 Next runner)
            end
        end
      end
    end
  end.

(** Running a body whose outside answers are known. *)
Ltac run_body :=
  cbv beta iota zeta delta [bind call pure ret try leave_on check];
  cbn [app]; rewrite ?app_nil_r; cbn [app].

(** [run] got as far as a loaded project: the run-mode check passed, the
    password and the filter were made and [Load] succeeded. *)
Definition Loaded (f : flag.t) (w : World) (password : string)
    (filter : option Filter) (project : Project) : Prop :=
  modeCheck f = None /\
  snd (mkPassword f w) = Next password /\
  snd (mkFilter f w) = Next filter /\
  Load w "." = Ok project.

(** The events up to and including [Load]. *)
Definition loading (f : flag.t) (w : World) : list Event :=
  prelude f ++ fst (mkPassword f w) ++ fst (mkFilter f w) ++ [EvLoad "."].

(** Membership in a trace built from known events, case by case. *)
Ltac in_cases H :=
  repeat match type of H with
    | In _ (_ ++ _) => apply in_app_or in H; destruct H as [H|H]
    | In _ (_ :: _) => destruct H as [H|H]
    | In _ [] => destruct H
    | In _ (if ?b then _ else _) => destruct b
    | In _ (match ?l with [] => _ | _ :: _ => _ end) => destruct l
    | In _ (prelude _) => unfold prelude in H
    | In _ (printed _) =>
        unfold printed in H; apply in_map_iff in H;
        destruct H as (? & H & _)
    end;
  try discriminate.

(** In [t], every [b] has an [a] somewhere before it. *)
Definition precedes {A} (a b : A) (t : list A) : Prop :=
  forall t1 t2, t = t1 ++ b :: t2 -> In a t1.

Definition is_Stop (ev : Event) : bool :=
  match ev with EvStop => true | _ => false end.

(** How often [runner.Stop()] was called. *)
Definition stops (t : list Event) : nat := List.length (filter is_Stop t).

(** What holds of the two threads under every schedule. *)
Record Inv (runner : Runner) (s : Threads) : Prop := {
  inv_stop : precedes EvInterrupt EvStop (trace s);
  inv_gstop : goPc s = GStop -> In EvInterrupt (trace s);
  inv_sig : sigch s <> 0 -> In EvInterrupt (trace s);
  inv_buf : sigch s <= 1;
  inv_once : stops (trace s) = match goPc s with GDone => 1 | _ => 0 end;
  inv_stopped :
    stopped s = match goPc s with GDone => true | _ => false end;
  inv_wait : forall e, precedes EvWaitCall (EvWaitReturn e) (trace s);
  inv_before : mainPc s = MBeforeWait -> ~ In EvWaitCall (trace s);
  inv_inwait : mainPc s = MInWait -> In EvWaitCall (trace s);
  inv_ret : forall e, mainPc s = MReturned e ->
      In (EvWaitReturn e) (trace s) /\
      exists b, e = Wait runner b /\ (b = true -> In EvStop (trace s))
}.

(** The threads emit no event of the sequential part. *)
Definition thread_event (ev : Event) : bool :=
  match ev with
  | EvInterrupt | EvStop | EvWaitCall | EvWaitReturn _ => true
  | _ => false
  end.

(** How many entries of [bs] are [true]. *)
Definition bool_count (bs : list bool) : nat :=
  List.length (filter (fun b => b) bs).

(** How many of the five selectors are set. *)
Definition selected (f : flag.t) : nat := bool_count (selectors f).

(** [spread -discard]: -reuse-pid is 0 and -reuse was not given. *)
Definition discarding : flag.t := with_discard true defaults.

(** Events of an execution: a runner is started, the signal channel and
    the goroutine are set up, or one of the two threads moves. *)
Definition execution_event (ev : Event) : bool :=
  match ev with
  | EvStart _ _ | EvNotify | EvGo => true
  | _ => thread_event ev
  end.

(** [spread -list] *)
Definition listing : flag.t := with_list true defaults.

(* ------------------------------------------------------------------ *)
(** ** parseReuseEntry *)

Definition comma : ascii := ","%char.

(** [strings.Index(s, sep)] with a one-byte separator: the position of
    its first occurrence, or -1. *)
Fixpoint Index (sep : ascii) (s : string) : Z :=
  match s with
  | EmptyString => (-1)%Z
  | String c rest =>
      if Ascii.eqb c sep then 0%Z
      else let i := Index sep rest in
           if (i <? 0)%Z then (-1)%Z else (i + 1)%Z
  end.

(** [s[:n]]. Go panics when [n] is beyond the end of [s]; the one caller
    passes an answer of [Index], which is within [s]. *)
Fixpoint slice_to (n : nat) (s : string) : string :=
  match n, s with
  | S n', String c rest => String c (slice_to n' rest)
  | _, _ => EmptyString
  end.

(** [s[n:]], with the same remark. *)
Fixpoint slice_from (n : nat) (s : string) : string :=
  match n, s with
  | S n', String _ rest => slice_from n' rest
  | _, _ => s
  end.

(** The two results of [parseReuseEntry]; the nil slice is [[]], which
    [strings.Split] never returns. *)
Definition parseReuseEntry (entry : string) : string * list string :=
  let i := Index colon entry in
  if (i >? 0)%Z then
    (slice_to (Z.to_nat i) entry,
     Split comma (slice_from (Z.to_nat (i + 1)) entry))
  else (EmptyString, []).

(** [strings.Join(parts, sep)], the way back from [Split]; the source
    does not call it, the statements about [Split] do. *)
Fixpoint Join (sep : ascii) (parts : list string) : string :=
  match parts with
  | [] => EmptyString
  | [part] => part
  | part :: rest => (part ++ String sep (Join sep rest))%string
  end.

(** [s] holds no [sep]. *)
Definition free_of (sep : ascii) (s : string) : Prop := Count sep s = 0.

(* ------------------------------------------------------------------ *)
(** ** Reading a password back *)

(** The value of a lowercase hexadecimal digit. *)
Definition hex_value (c : ascii) : N :=
  let n := N_of_ascii c in
  if (n <? 58)%N then (n - 48)%N else (n - 87)%N.

(** The way back from [Sprintf_x]; the source does not call it, the
    statement that no byte is lost does. *)
Fixpoint unhex (s : string) : list (option byte) :=
  match s with
  | String h (String l rest) =>
      Byte.of_N (16 * hex_value h + hex_value l) :: unhex rest
  | _ => []
  end.

(* ------------------------------------------------------------------ *)
(** ** More notions for the two threads *)

Definition is_Start (ev : Event) : bool :=
  match ev with EvStart _ _ => true | _ => false end.

Definition is_Jobs (ev : Event) : bool :=
  match ev with EvJobs _ _ => true | _ => false end.

Definition is_Load (ev : Event) : bool :=
  match ev with EvLoad _ => true | _ => false end.

Definition is_WaitReturn (ev : Event) : bool :=
  match ev with EvWaitReturn _ => true | _ => false end.

(** How often an event of a kind occurs. *)
Definition occurrences (kind : Event -> bool) (t : list Event) : nat :=
  List.length (filter kind t).

(** Whether [runner.Stop()] was called in [t]. *)
Definition stop_called (t : list Event) : bool := existsb is_Stop t.

(** More of what holds of the two threads under every schedule: an
    interrupt that arrived is in the channel or was received; the runner
    is stopped exactly when [Stop] was called; [Wait] comes back once,
    with the answer of the runner as it was then. *)
Record Sync (runner : Runner) (s : Threads) : Prop := {
  sync_pending :
    goPc s = GRecv -> sigch s = 0 -> ~ In EvInterrupt (trace s);
  sync_stopped : stopped s = stop_called (trace s);
  sync_noret :
    (forall e, mainPc s <> MReturned e) ->
    occurrences is_WaitReturn (trace s) = 0;
  sync_ret : forall e, mainPc s = MReturned e ->
    exists t1 t2,
      trace s = t1 ++ EvWaitReturn e :: t2 /\
      e = Wait runner (stop_called t1) /\
      occurrences is_WaitReturn (trace s) = 1
}.

(* ------------------------------------------------------------------ *)
(** ** More sample command lines and environments *)

Definition with_args (a : list string) (f : flag.t) : flag.t :=
  {| flag.args := a; flag.verbose := flag.verbose f;
     flag.vverbose := flag.vverbose f; flag.list := flag.list f;
     flag.pass := flag.pass f; flag.reuse := flag.reuse f;
     flag.reusePid := flag.reusePid f; flag.resend := flag.resend f;
     flag.debug := flag.debug f; flag.noDebug := flag.noDebug f;
     flag.shell := flag.shell f; flag.shellBefore := flag.shellBefore f;
     flag.shellAfter := flag.shellAfter f; flag.abend := flag.abend f;
     flag.restore := flag.restore f; flag.discard := flag.discard f;
     flag.artifacts := flag.artifacts f; flag.logs := flag.logs f;
     flag.seed := flag.seed f; flag.repeat := flag.repeat f;
     flag.garbageCollect := flag.garbageCollect f;
     flag.download := flag.download f |}.

(** [spread lxd:] *)
Definition filtering : flag.t := with_args ["lxd:"] defaults.

(** An environment whose [NewFilter] rejects every pattern. *)
Definition world_badfilter : World :=
  {| rand_Read := rand_Read world0;
     NewFilter := fun _ => Err "invalid filter";
     Load := Load world0;
     Start := Start world0 |}.

(** An environment without a project to load. *)
Definition world_noload : World :=
  {| rand_Read := rand_Read world0;
     NewFilter := NewFilter world0;
     Load := fun _ => Err "cannot load project file";
     Start := Start world0 |}.

(** An environment in which no runner starts. *)
Definition world_nostart : World :=
  {| rand_Read := rand_Read world0;
     NewFilter := NewFilter world0;
     Load := Load world0;
     Start := fun _ _ => Err "cannot allocate" |}.

(** A different random source. *)
Definition world_other : World :=
  {| rand_Read := fun n =>
       (firstn n [x00; x11; x22; x33; x44; x55; x66; x77], None);
     NewFilter := NewFilter world0;
     Load := Load world0;
     Start := Start world0 |}.

Definition os_readonly : OS :=
  {| MkdirAll := fun _ _ => Some "permission denied";
     cmd_Start := fun _ _ _ => None;
     cmd_Wait := None |}.

Definition os_notar : OS :=
  {| MkdirAll := fun _ _ => None;
     cmd_Start := fun _ _ _ => Some "executable file not found";
     cmd_Wait := None |}.

Definition os_ok : OS :=
  {| MkdirAll := fun _ _ => None;
     cmd_Start := fun _ _ _ => None;
     cmd_Wait := None |}.

Definition client_ok : Client :=
  {| RecvTar := fun _ _ => None |}.

(* ------------------------------------------------------------------ *)
(** ** The shape of a sequential run *)

Lemma printJobs_eq (jobs : list Job) :
  printJobs jobs = (printed jobs, Next tt).
Proof.
  induction jobs as [|job rest IH]; [reflexivity|].
  cbn [printJobs printed map]. unfold bind, call. rewrite IH. reflexivity.
Qed.

Lemma bind_Next {E A B} (t : list E) (a : A) (k : A -> Act E B) :
  bind (t, Next a) k = (t ++ fst (k a), snd (k a)).
Proof. unfold bind. destruct (k a). reflexivity. Qed.

Lemma bind_Return {E A B} (t : list E) (e : option error)
    (k : A -> Act E B) :
  bind (t, Return e) k = (t, Return e).
Proof. reflexivity. Qed.

Lemma bind_call {E A B} (ev : E) (a : A) (k : A -> Act E B) :
  bind (call ev a) k = (ev :: fst (k a), snd (k a)).
Proof. unfold call. rewrite bind_Next. reflexivity. Qed.

Lemma run_seq_unfold (f : flag.t) (w : World) :
  run_seq f w = run_seq_stages f w.
Proof.
  unfold run_seq, run_seq_stages, prelude.
  destruct (modeCheck f) as [e|]; [reflexivity|].
  destruct (mkPassword f w) as [t1 [password|e]]; [|run_body; reflexivity].
  destruct (mkFilter f w) as [t2 [filter|e]]; [|run_body; reflexivity].
  destruct (Load w ".") as [project|e]; [|run_body; reflexivity].
  destruct (flag.list f).
  - destruct (Jobs (catalog project) _) as [jobs|e] eqn:EJ;
      run_body; rewrite EJ; run_body; rewrite ?printJobs_eq; run_body;
      reflexivity.
  - destruct (Start w _ _) as [runner|e] eqn:ES;
      run_body; rewrite ES; run_body; reflexivity.
Qed.

(** The password stage. *)
Lemma mkPassword_trace (f : flag.t) (w : World) :
  fst (mkPassword f w) =
  if String.eqb (flag.pass f) "" then [EvRandRead 8] else [].
Proof.
  unfold mkPassword. destruct (String.eqb (flag.pass f) ""); [|reflexivity].
  destruct (rand_Read w 8) as [data [e|]]; reflexivity.
Qed.

Lemma mkPassword_given (f : flag.t) (w : World) :
  flag.pass f <> "" -> mkPassword f w = ([], Next (flag.pass f)).
Proof.
  intros H. unfold mkPassword.
  destruct (String.eqb_spec (flag.pass f) ""); [contradiction|reflexivity].
Qed.

Lemma mkPassword_random (f : flag.t) (w : World) :
  flag.pass f = "" ->
  mkPassword f w =
  ([EvRandRead 8],
   match snd (rand_Read w 8) with
   | Some e => Return (Some (Errorf "cannot generate random password" e))
   | None => Next (Sprintf_x (fill (make_bytes 8) (fst (rand_Read w 8))))
   end).
Proof.
  intros H. unfold mkPassword. rewrite H. cbn [String.eqb].
  destruct (rand_Read w 8) as [data [e|]]; reflexivity.
Qed.

(** The filter stage. *)
Lemma mkFilter_trace (f : flag.t) (w : World) :
  fst (mkFilter f w) =
  match flag.args f with
  | [] => []
  | _ :: _ => [EvNewFilter (flag.args f)]
  end.
Proof.
  unfold mkFilter. destruct (flag.args f) as [|a l]; [reflexivity|].
  cbn [List.length Nat.ltb Nat.leb].
  destruct (NewFilter w (a :: l)); reflexivity.
Qed.

Lemma mkFilter_none (f : flag.t) (w : World) :
  flag.args f = [] -> mkFilter f w = ([], Next None).
Proof. intros H. unfold mkFilter. rewrite H. reflexivity. Qed.

Lemma mkFilter_some (f : flag.t) (w : World) :
  flag.args f <> [] ->
  mkFilter f w =
  ([EvNewFilter (flag.args f)],
   match NewFilter w (flag.args f) with
   | Ok flt => Next flt
   | Err e => Return (Some e)
   end).
Proof.
  intros H. unfold mkFilter. destruct (flag.args f) as [|a l];
    [contradiction|].
  cbn [List.length Nat.ltb Nat.leb].
  destruct (NewFilter w (a :: l)); reflexivity.
Qed.

Lemma run_seq_Loaded (f : flag.t) (w : World) password filter project :
  Loaded f w password filter project ->
  run_seq f w =
  let options := mkOptions f password filter in
  if flag.list f then
    match Jobs (catalog project) options with
    | Err e => (loading f w ++ [EvJobs project options], Return (Some e))
    | Ok jobs =>
        (loading f w ++ [EvJobs project options] ++ printed jobs,
         Return None)
    end
  else
    match Start w (installHook f project) (coerceReuse options) with
    | Err e =>
        (loading f w ++
           [EvStart (installHook f project) (coerceReuse options)],
         Return (Some e))
    | Ok runner =>
        (loading f w ++
           [EvStart (installHook f project) (coerceReuse options);
            EvNotify; EvGo],
         Next runner)
    end.
Proof.
  intros (Hm & Hp & Hf & Hl).
  rewrite run_seq_unfold. unfold run_seq_stages, loading.
  rewrite Hm, Hl.
  destruct (mkPassword f w) as [t1 o1]. cbn [fst snd] in *. subst o1.
  destruct (mkFilter f w) as [t2 o2]. cbn [fst snd] in *. subst o2.
  cbv zeta.
  destruct (flag.list f).
  - destruct (Jobs (catalog project) _);
      rewrite <- ?app_assoc; reflexivity.
  - destruct (Start w _ _); rewrite <- ?app_assoc; reflexivity.
Qed.

(** Whoever sees [Start] or [Jobs] in the sequential trace knows how
    [run] got there and what it passed. *)
Lemma run_seq_Start (f : flag.t) (w : World) p o :
  In (EvStart p o) (fst (run_seq f w)) ->
  exists password filter project,
    Loaded f w password filter project /\
    flag.list f = false /\
    p = installHook f project /\
    o = coerceReuse (mkOptions f password filter).
Proof.
  rewrite run_seq_unfold. unfold run_seq_stages, Loaded.
  pose proof (mkPassword_trace f w) as T1.
  pose proof (mkFilter_trace f w) as T2.
  destruct (modeCheck f) as [e|]; cbn [fst].
  { intros H. in_cases H. }
  destruct (mkPassword f w) as [t1 [password|e]]; cbn [fst snd] in *; subst t1.
  2:{ intros H. in_cases H. }
  destruct (mkFilter f w) as [t2 [filter|e]]; cbn [fst snd] in *; subst t2.
  2:{ intros H. in_cases H. }
  destruct (Load w ".") as [project|e]; cbn [fst].
  2:{ intros H. in_cases H. }
  destruct (flag.list f).
  - destruct (Jobs _ _); cbn [fst]; intros H; in_cases H.
  - destruct (Start w _ _); cbn [fst]; intros H; in_cases H;
      inversion H; subst; exists password, filter, project; auto.
Qed.

Lemma run_seq_Jobs (f : flag.t) (w : World) p o :
  In (EvJobs p o) (fst (run_seq f w)) ->
  exists password filter,
    Loaded f w password filter p /\
    flag.list f = true /\
    o = mkOptions f password filter.
Proof.
  rewrite run_seq_unfold. unfold run_seq_stages, Loaded.
  pose proof (mkPassword_trace f w) as T1.
  pose proof (mkFilter_trace f w) as T2.
  destruct (modeCheck f) as [e|]; cbn [fst].
  { intros H. in_cases H. }
  destruct (mkPassword f w) as [t1 [password|e]]; cbn [fst snd] in *; subst t1.
  2:{ intros H. in_cases H. }
  destruct (mkFilter f w) as [t2 [filter|e]]; cbn [fst snd] in *; subst t2.
  2:{ intros H. in_cases H. }
  destruct (Load w ".") as [project|e]; cbn [fst].
  2:{ intros H. in_cases H. }
  destruct (flag.list f).
  - destruct (Jobs _ _); cbn [fst]; intros H; in_cases H;
      inversion H; subst; exists password, filter; auto.
  - destruct (Start w _ _); cbn [fst]; intros H; in_cases H.
Qed.

(* ------------------------------------------------------------------ *)
(** ** The two threads: what every schedule preserves *)

Lemma snoc_split {A} (t t1 t2 : list A) (x y : A) :
  t ++ [x] = t1 ++ y :: t2 ->
  (t2 = [] /\ x = y /\ t = t1) \/
  (exists t2', t2 = t2' ++ [x] /\ t = t1 ++ y :: t2').
Proof.
  destruct t2 as [|z t2] using rev_ind; intros H.
  - left. change (t1 ++ [y]) with (t1 ++ [y]) in H.
    apply app_inj_tail in H. destruct H; auto.
  - right. exists t2.
    change (t1 ++ y :: t2 ++ [z]) with (t1 ++ (y :: t2) ++ [z]) in H.
    rewrite app_assoc in H. apply app_inj_tail in H.
    destruct H as [H1 H2]. subst. auto.
Qed.

Lemma precedes_nil {A} (a b : A) : precedes a b [].
Proof. intros [|x t1] t2 H; discriminate. Qed.

Lemma precedes_snoc_other {A} (a b x : A) (t : list A) :
  x <> b -> precedes a b t -> precedes a b (t ++ [x]).
Proof.
  intros Hx Ht t1 t2 H. apply snoc_split in H.
  destruct H as [(_ & E & _)|(t2' & _ & E)]; [contradiction|].
  exact (Ht _ _ E).
Qed.

Lemma precedes_snoc {A} (a b : A) (t : list A) :
  In a t -> precedes a b t -> precedes a b (t ++ [b]).
Proof.
  intros Ha Ht t1 t2 H. apply snoc_split in H.
  destruct H as [(_ & _ & E)|(t2' & _ & E)]; [subst; exact Ha|].
  exact (Ht _ _ E).
Qed.

Lemma stops_snoc (t : list Event) (ev : Event) :
  stops (t ++ [ev]) = stops t + (if is_Stop ev then 1 else 0).
Proof.
  unfold stops. rewrite filter_app, length_app. cbn [filter].
  destruct (is_Stop ev); reflexivity.
Qed.

Lemma Inv_threads0 (runner : Runner) : Inv runner threads0.
Proof.
  constructor; cbn; try discriminate; try apply precedes_nil; auto.
  intros e. apply precedes_nil.
Qed.

Lemma Inv_step (runner : Runner) (s : Threads) (a : Action) :
  Inv runner s -> Inv runner (step runner s a).
Proof.
  intros I. destruct a; cbn [step].
  - (* an interrupt arrives *)
    constructor; cbn [trace goPc sigch stopped mainPc].
    + apply precedes_snoc_other; [discriminate|apply I].
    + intros _. apply in_or_app. right. left. reflexivity.
    + intros _. apply in_or_app. right. left. reflexivity.
    + pose proof (inv_buf _ _ I). destruct (Nat.ltb_spec (sigch s) 1); lia.
    + rewrite stops_snoc, (inv_once _ _ I). cbn. lia.
    + apply I.
    + intros e. apply precedes_snoc_other; [discriminate|apply I].
    + intros H C. apply in_app_or in C. destruct C as [C|C].
      * exact (inv_before _ _ I H C).
      * in_cases C.
    + intros H. apply in_or_app. left. apply (inv_inwait _ _ I H).
    + intros e H. destruct (inv_ret _ _ I e H) as (H1 & b & H2 & H3).
      split; [apply in_or_app; auto|].
      exists b. split; [exact H2|]. intros Hb. apply in_or_app. auto.
  - (* the goroutine moves *)
    destruct (goPc s) eqn:G; [destruct (sigch s) eqn:C| |]; try exact I.
    + (* <-sigch *)
      pose proof (inv_sig _ _ I) as HS. rewrite C in HS.
      constructor; cbn [trace goPc sigch stopped mainPc]; try apply I.
      * intros _. apply HS. discriminate.
      * intros _. apply HS. discriminate.
      * pose proof (inv_buf _ _ I). lia.
      * rewrite (inv_once _ _ I), G. reflexivity.
      * rewrite (inv_stopped _ _ I), G. reflexivity.
    + (* runner.Stop() *)
      constructor; cbn [trace goPc sigch stopped mainPc].
      * apply precedes_snoc; [apply (inv_gstop _ _ I G)|apply I].
      * discriminate.
      * intros H. apply in_or_app. left. apply (inv_sig _ _ I H).
      * apply I.
      * rewrite stops_snoc, (inv_once _ _ I), G. reflexivity.
      * reflexivity.
      * intros e. apply precedes_snoc_other; [discriminate|apply I].
      * intros H C. apply in_app_or in C. destruct C as [C|C].
        -- exact (inv_before _ _ I H C).
        -- in_cases C.
      * intros H. apply in_or_app. left. apply (inv_inwait _ _ I H).
      * intros e H. destruct (inv_ret _ _ I e H) as (H1 & b & H2 & H3).
        split; [apply in_or_app; auto|].
        exists b. split; [exact H2|]. intros Hb. apply in_or_app. auto.
  - (* the main thread moves *)
    destruct (mainPc s) eqn:M; try exact I.
    + (* runner.Wait() is called *)
      constructor; cbn [trace goPc sigch stopped mainPc]; try discriminate.
      * apply precedes_snoc_other; [discriminate|apply I].
      * intros H. apply in_or_app. left. apply (inv_gstop _ _ I H).
      * intros H. apply in_or_app. left. apply (inv_sig _ _ I H).
      * apply I.
      * rewrite stops_snoc, (inv_once _ _ I). cbn. lia.
      * apply I.
      * intros e. apply precedes_snoc_other; [discriminate|apply I].
      * intros _. apply in_or_app. right. left. reflexivity.
    + (* runner.Wait() comes back *)
      constructor; cbn [trace goPc sigch stopped mainPc]; try discriminate.
      * apply precedes_snoc_other; [discriminate|apply I].
      * intros H. apply in_or_app. left. apply (inv_gstop _ _ I H).
      * intros H. apply in_or_app. left. apply (inv_sig _ _ I H).
      * apply I.
      * rewrite stops_snoc, (inv_once _ _ I). cbn. lia.
      * apply I.
      * intros e t1 t2 H. apply snoc_split in H.
        destruct H as [(_ & _ & E)|(t2' & _ & E)].
        -- subst. apply (inv_inwait _ _ I M).
        -- exact (inv_wait _ _ I e _ _ E).
      * intros e H. inversion H; subst. split.
        -- apply in_or_app. right. left. reflexivity.
        -- exists (stopped s). split; [reflexivity|].
           intros Hb. apply in_or_app. left.
           pose proof (inv_stopped _ _ I) as HS. rewrite Hb in HS.
           pose proof (inv_once _ _ I) as HO.
           destruct (goPc s); try discriminate.
           unfold stops in HO.
           destruct (filter is_Stop (trace s)) as [|ev l] eqn:F;
             [discriminate|].
           assert (HI : In ev (filter is_Stop (trace s)))
             by (rewrite F; left; reflexivity).
           apply filter_In in HI. destruct HI as [HI1 HI2].
           destruct ev; try discriminate. exact HI1.
Qed.

Lemma Inv_steps (runner : Runner) (sched : list Action) (s : Threads) :
  Inv runner s -> Inv runner (steps runner sched s).
Proof.
  revert s. induction sched as [|a sched IH]; intros s I; [exact I|].
  cbn [steps fold_left]. apply IH, Inv_step, I.
Qed.

Lemma step_events (runner : Runner) (s : Threads) (a : Action) :
  forallb thread_event (trace s) = true ->
  forallb thread_event (trace (step runner s a)) = true.
Proof.
  intros H. destruct a; cbn [step].
  - cbn [trace]. rewrite forallb_app, H. reflexivity.
  - destruct (goPc s); [destruct (sigch s)| |]; cbn [trace]; auto.
    rewrite forallb_app, H. reflexivity.
  - destruct (mainPc s); cbn [trace]; auto;
      rewrite forallb_app, H; reflexivity.
Qed.

Lemma steps_events (runner : Runner) (sched : list Action) (s : Threads) :
  forallb thread_event (trace s) = true ->
  forallb thread_event (trace (steps runner sched s)) = true.
Proof.
  revert s. induction sched as [|a sched IH]; intros s H; [exact H|].
  cbn [steps fold_left]. apply IH, step_events, H.
Qed.

Lemma threads_events (runner : Runner) (sched : list Action) (ev : Event) :
  In ev (trace (steps runner sched threads0)) -> thread_event ev = true.
Proof.
  intros H.
  pose proof (steps_events runner sched threads0 eq_refl) as F.
  rewrite forallb_forall in F. exact (F ev H).
Qed.

(** The moves of the main thread are its own: neither an interrupt nor
    the goroutine changes where the main thread is. *)
Lemma step_mainPc (runner : Runner) (s : Threads) (a : Action) :
  a <> MainStep -> mainPc (step runner s a) = mainPc s.
Proof.
  intros H. destruct a; [reflexivity| |contradiction].
  cbn [step]. destruct (goPc s); [destruct (sigch s)| |]; reflexivity.
Qed.

(** Given its two moves, the main thread has returned from [Wait]. *)
Lemma main_returns (runner : Runner) (s : Threads) :
  exists e, mainResult (steps runner [MainStep; MainStep] s) = Some e.
Proof.
  cbn [steps fold_left]. unfold mainResult.
  destruct (mainPc s) eqn:M; cbn [step]; rewrite ?M; cbn [mainPc step];
    rewrite ?M; eauto.
Qed.

(* ------------------------------------------------------------------ *)
(** ** From the full run back to its sequential part *)

Lemma run_In_seq (f : flag.t) (w : World) (sched : list Action) ev :
  In ev (fst (run f w sched)) -> thread_event ev = false ->
  In ev (fst (run_seq f w)).
Proof.
  unfold run. destruct (run_seq f w) as [t [runner|e]]; cbn [fst]; auto.
  intros H K. apply in_app_or in H. destruct H as [H|H]; [exact H|].
  apply threads_events in H. congruence.
Qed.

Lemma run_seq_In (f : flag.t) (w : World) (sched : list Action) ev :
  In ev (fst (run_seq f w)) -> In ev (fst (run f w sched)).
Proof.
  unfold run. destruct (run_seq f w) as [t [runner|e]]; cbn [fst]; auto.
  intros H. apply in_or_app. auto.
Qed.

Lemma run_Start (f : flag.t) (w : World) (sched : list Action) p o :
  In (EvStart p o) (fst (run f w sched)) ->
  exists password filter project,
    Loaded f w password filter project /\
    flag.list f = false /\
    p = installHook f project /\
    o = coerceReuse (mkOptions f password filter).
Proof.
  intros H. apply run_seq_Start. exact (run_In_seq _ _ _ _ H eq_refl).
Qed.

Lemma run_Jobs (f : flag.t) (w : World) (sched : list Action) p o :
  In (EvJobs p o) (fst (run f w sched)) ->
  exists password filter,
    Loaded f w password filter p /\
    flag.list f = true /\
    o = mkOptions f password filter.
Proof.
  intros H. apply run_seq_Jobs. exact (run_In_seq _ _ _ _ H eq_refl).
Qed.

(** A non-list run with a loaded project calls [Start], with the hook
    installed and the options coerced. *)
Lemma run_calls_Start (f : flag.t) (w : World) (sched : list Action)
    password filter project :
  Loaded f w password filter project -> flag.list f = false ->
  In (EvStart (installHook f project)
        (coerceReuse (mkOptions f password filter)))
     (fst (run f w sched)).
Proof.
  intros L H. apply run_seq_In. rewrite (run_seq_Loaded _ _ _ _ _ L), H.
  cbv zeta. destruct (Start w _ _); cbn [fst]; apply in_or_app; right;
    left; reflexivity.
Qed.

(** [options.Reuse = true] touches no other field. *)
Lemma coerceReuse_Reuse (o : Options.t) :
  Options.Reuse (coerceReuse o) =
  if Options.Discard o && (Options.ReusePid o =? 0)%Z then true
  else Options.Reuse o.
Proof.
  unfold coerceReuse.
  destruct (Options.Discard o && (Options.ReusePid o =? 0)%Z); reflexivity.
Qed.

Lemma coerceReuse_rest (o : Options.t) :
  Options.Password (coerceReuse o) = Options.Password o /\
  Options.Filter (coerceReuse o) = Options.Filter o /\
  Options.Discard (coerceReuse o) = Options.Discard o /\
  Options.ReusePid (coerceReuse o) = Options.ReusePid o /\
  Options.NoDebug (coerceReuse o) = Options.NoDebug o.
Proof.
  unfold coerceReuse.
  destruct (Options.Discard o && (Options.ReusePid o =? 0)%Z);
    cbn; auto.
Qed.

(* ------------------------------------------------------------------ *)
(** ** The run-mode loop counts *)

Lemma bool_count_cons (b : bool) (bs : list bool) :
  bool_count (b :: bs) = (if b then 1 else 0) + bool_count bs.
Proof. unfold bool_count. cbn [filter]. destruct b; reflexivity. Qed.

Lemma modeLoop_count (bs : list bool) (other : bool) :
  modeLoop bs other =
  if (1 <? bool_count bs + (if other then 1 else 0))%nat
  then Some conflict else None.
Proof.
  revert other. induction bs as [|b bs IH]; intros other.
  - destruct other; reflexivity.
  - cbn [modeLoop]. rewrite bool_count_cons.
    destruct b, other; cbn [andb orb]; rewrite ?IH.
    + destruct (Nat.ltb_spec 1 (1 + bool_count bs + 1));
        [reflexivity|lia].
    + replace (1 + bool_count bs + 0) with (bool_count bs + 1) by lia.
      reflexivity.
    + reflexivity.
    + reflexivity.
Qed.

Lemma modeCheck_count (f : flag.t) :
  modeCheck f = if (1 <? selected f)%nat then Some conflict else None.
Proof.
  unfold modeCheck, selected. rewrite modeLoop_count.
  rewrite Nat.add_0_r. reflexivity.
Qed.

Lemma nth_true_count (bs : list bool) (i : nat) :
  nth_error bs i = Some true -> 0 < bool_count bs.
Proof.
  revert i. induction bs as [|b bs IH]; intros [|i] H; try discriminate;
    rewrite bool_count_cons; cbn [nth_error] in H.
  - inversion H; subst. lia.
  - specialize (IH _ H). lia.
Qed.

Lemma pair_true_count (bs : list bool) (i j : nat) :
  i <> j -> nth_error bs i = Some true -> nth_error bs j = Some true ->
  1 < bool_count bs.
Proof.
  revert i j. induction bs as [|b bs IH]; intros [|i] [|j] N Hi Hj;
    try discriminate; try contradiction;
    rewrite bool_count_cons; cbn [nth_error] in Hi, Hj.
  - inversion Hi; subst. apply nth_true_count in Hj. lia.
  - inversion Hj; subst. apply nth_true_count in Hi. lia.
  - assert (N' : i <> j) by congruence.
    specialize (IH _ _ N' Hi Hj). lia.
Qed.

(* ------------------------------------------------------------------ *)
(** ** Hexadecimal passwords *)

Lemma fill_length (buf data : list byte) :
  List.length (fill buf data) = List.length buf.
Proof.
  revert data. induction buf as [|b buf IH]; intros [|d data];
    cbn [fill List.length]; auto.
Qed.

Lemma fill_exact (buf data : list byte) :
  List.length data = List.length buf -> fill buf data = data.
Proof.
  revert data. induction buf as [|b buf IH]; intros [|d data] H;
    cbn [fill List.length] in *; try discriminate; auto.
  f_equal. apply IH. lia.
Qed.

Lemma Sprintf_x_length (buf : list byte) :
  String.length (Sprintf_x buf) = 2 * List.length buf.
Proof.
  induction buf as [|c buf IH]; [reflexivity|].
  cbn [Sprintf_x String.length List.length]. rewrite IH. lia.
Qed.

Lemma byte_digits_hex (c : byte) :
  is_lower_hex (digit (N.shiftr (Byte.to_N c) 4)) = true /\
  is_lower_hex (digit (N.land (Byte.to_N c) 15)) = true.
Proof. destruct c; split; reflexivity. Qed.

Lemma Sprintf_x_hex (buf : list byte) :
  Forall (fun c => is_lower_hex c = true)
    (list_ascii_of_string (Sprintf_x buf)).
Proof.
  induction buf as [|c buf IH]; [constructor|].
  cbn [Sprintf_x list_ascii_of_string].
  destruct (byte_digits_hex c) as [H1 H2].
  constructor; [exact H1|]. constructor; [exact H2|exact IH].
Qed.

(* ------------------------------------------------------------------ *)
(** ** Splitting on the colon *)

Lemma Split_length (sep : ascii) (s : string) :
  List.length (Split sep s) = S (Count sep s).
Proof.
  induction s as [|c s IH]; [reflexivity|].
  cbn [Split Count]. destruct (Ascii.eqb c sep).
  - cbn [List.length]. rewrite IH. reflexivity.
  - destruct (Split sep s) as [|part parts]; [discriminate|].
    cbn [List.length] in *. lia.
Qed.

(* ------------------------------------------------------------------ *)
(** ** The run modes exclude one another *)

(** When the run-mode check fails, [run] returns at once. *)
Lemma run_conflict (f : flag.t) (w : World) (sched : list Action) :
  1 < selected f -> run f w sched = (prelude f, Some (Some conflict)).
Proof.
  intros H. unfold run. rewrite run_seq_unfold. unfold run_seq_stages.
  rewrite modeCheck_count.
  destruct (Nat.ltb_spec 1 (selected f)); [reflexivity|lia].
Qed.

(** C1. Whenever more than one of the selectors -debug, -shell,
    -shell-before/-shell-after (one selector together), -abend and
    -restore is set, and so for every pair of two distinct selectors that
    are both set, [run] returns the conflict error having done nothing but
    its prelude: [Load], [Jobs] and [Start] have not been called and no
    thread was started. When at most one selector is set the check
    passes. *)
Theorem run_mode_exclusive (f : flag.t) (w : World) (sched : list Action) :
  (1 < selected f ->
     run f w sched = (prelude f, Some (Some conflict)) /\
     (forall p o, ~ In (EvStart p o) (fst (run f w sched))) /\
     (forall p o, ~ In (EvJobs p o) (fst (run f w sched))) /\
     (forall path, ~ In (EvLoad path) (fst (run f w sched)))) /\
  (forall i j, i <> j ->
     nth_error (selectors f) i = Some true ->
     nth_error (selectors f) j = Some true ->
     run f w sched = (prelude f, Some (Some conflict))) /\
  (selected f <= 1 -> modeCheck f = None).
Proof.
  split; [|split].
  - intros H. rewrite (run_conflict f w sched H). cbn [fst].
    repeat split; try reflexivity; intros; intros C; in_cases C.
  - intros i j N Hi Hj. apply run_conflict.
    exact (pair_true_count _ _ _ N Hi Hj).
  - intros H. rewrite modeCheck_count.
    destruct (Nat.ltb_spec 1 (selected f)); [lia|reflexivity].
Qed.

Lemma run_mode_exclusive_witness :
  run shell_abend world0 [Interrupt; MainStep] =
    (prelude shell_abend, Some (Some conflict)) /\
  run shell_abend world0 [] = (prelude shell_abend, Some (Some conflict)) /\
  modeCheck defaults = None.
Proof.
  split; [|split].
  - apply (proj1 (run_mode_exclusive shell_abend world0
                    [Interrupt; MainStep])).
    cbv. lia.
  - apply (proj1 (proj2 (run_mode_exclusive shell_abend world0 [])) 1 3);
      [discriminate|reflexivity|reflexivity].
  - apply (proj2 (proj2 (run_mode_exclusive defaults world0 []))).
    cbv. lia.
Defined.

(** C2, as the claim has it, fails: -no-debug-output together with
    -shell, or with -abend, passes the run-mode check, and [run] goes on
    to a successful campaign. *)
Lemma noDebug_not_rejected :
  flag.noDebug noDebug_shell = true /\
  flag.shell noDebug_shell = true /\
  modeCheck noDebug_shell = None /\
  snd (run noDebug_shell world0 [MainStep; MainStep]) = Some None /\
  flag.noDebug noDebug_abend = true /\
  flag.abend noDebug_abend = true /\
  modeCheck noDebug_abend = None /\
  snd (run noDebug_abend world0 [MainStep; MainStep]) = Some None.
Proof. repeat split; reflexivity. Qed.

(** C2, amended. -no-debug-output is not one of the selectors the
    run-mode check ranges over: the check gives the same verdict whatever
    the flag is, it rejects exactly when more than one of -debug, -shell,
    -shell-before/-shell-after, -abend and -restore is set, and with
    -no-debug-output set next to at most one of them it passes. The flag
    itself is handed on unchanged as [Options.NoDebug]. *)
Theorem noDebug_not_a_selector (f : flag.t) (b : bool) :
  modeCheck (with_noDebug b f) = modeCheck f /\
  (modeCheck f = Some conflict <-> 1 < selected f) /\
  (flag.noDebug f = true -> selected f <= 1 -> modeCheck f = None) /\
  (forall password filter,
     Options.NoDebug (mkOptions f password filter) = flag.noDebug f).
Proof.
  split; [reflexivity|]. split; [|split].
  - rewrite modeCheck_count.
    destruct (Nat.ltb_spec 1 (selected f)) as [L|L]; split; intros H;
      try reflexivity; try discriminate; lia.
  - intros _ H. rewrite modeCheck_count.
    destruct (Nat.ltb_spec 1 (selected f)); [lia|reflexivity].
  - reflexivity.
Qed.

Lemma noDebug_not_a_selector_witness :
  modeCheck noDebug_shell = None /\
  modeCheck (with_noDebug true shell_abend) = modeCheck shell_abend.
Proof.
  split.
  - apply (proj1 (proj2 (proj2
             (noDebug_not_a_selector noDebug_shell true)))).
    + reflexivity.
    + cbv. lia.
  - apply (proj1 (noDebug_not_a_selector shell_abend true)).
Defined.

(* ------------------------------------------------------------------ *)
(** ** The password *)

(** C3. With an empty -pass, the password is the lowercase hexadecimal
    form of the eight bytes of the buffer that [rand.Read] filled:
    sixteen characters out of 0-9 and a-f, and when the random source
    fails [run] returns "cannot generate random password". With a
    non-empty -pass the password is the flag, and the random source is not
    consulted. Either way it is the [Password] of the options that [Jobs]
    or [Start] receive. *)
Theorem password_generated (f : flag.t) (w : World) :
  (flag.pass f = "" -> snd (rand_Read w 8) = None ->
     let buf := fill (make_bytes 8) (fst (rand_Read w 8)) in
     mkPassword f w = ([EvRandRead 8], Next (Sprintf_x buf)) /\
     List.length buf = 8 /\
     String.length (Sprintf_x buf) = 16 /\
     Forall (fun c => is_lower_hex c = true)
       (list_ascii_of_string (Sprintf_x buf)) /\
     (List.length (fst (rand_Read w 8)) = 8 ->
        buf = fst (rand_Read w 8))) /\
  (flag.pass f = "" -> forall e, snd (rand_Read w 8) = Some e ->
     modeCheck f = None ->
     forall sched,
       run f w sched =
       (prelude f ++ [EvRandRead 8],
        Some (Some (Errorf "cannot generate random password" e)))) /\
  (flag.pass f <> "" -> mkPassword f w = ([], Next (flag.pass f))) /\
  (forall sched p o,
     In (EvStart p o) (fst (run f w sched)) \/
     In (EvJobs p o) (fst (run f w sched)) ->
     snd (mkPassword f w) = Next (Options.Password o)).
Proof.
  split; [|split; [|split]].
  - intros Hp Hr buf. rewrite (mkPassword_random f w Hp), Hr.
    assert (L : List.length buf = 8).
    { unfold buf. rewrite fill_length. reflexivity. }
    split; [reflexivity|]. split; [exact L|].
    split; [rewrite Sprintf_x_length, L; reflexivity|].
    split; [apply Sprintf_x_hex|].
    intros H. unfold buf. apply fill_exact. rewrite H. reflexivity.
  - intros Hp e Hr Hm sched. unfold run. rewrite run_seq_unfold.
    unfold run_seq_stages. rewrite Hm, (mkPassword_random f w Hp), Hr.
    reflexivity.
  - apply mkPassword_given.
  - intros sched p o [H|H].
    + apply run_Start in H.
      destruct H as (pw & flt & p0 & (_ & Hpw & _) & _ & _ & ->).
      rewrite Hpw. f_equal. symmetry.
      exact (proj1 (coerceReuse_rest _)).
    + apply run_Jobs in H.
      destruct H as (pw & flt & (_ & Hpw & _) & _ & ->).
      exact Hpw.
Qed.

Lemma password_generated_witness :
  mkPassword defaults world0 = ([EvRandRead 8], Next "deadbeef01234567") /\
  run defaults world_norand [] =
    (prelude defaults ++ [EvRandRead 8],
     Some (Some "cannot generate random password: EOF")) /\
  mkPassword (with_pass "s3cret" defaults) world0 = ([], Next "s3cret").
Proof.
  split; [|split].
  - apply (proj1 (password_generated defaults world0)); reflexivity.
  - apply (proj1 (proj2 (password_generated defaults world_norand))
             eq_refl "EOF"); reflexivity.
  - apply (proj1 (proj2 (proj2
             (password_generated (with_pass "s3cret" defaults) world0)))).
    discriminate.
Defined.

(* ------------------------------------------------------------------ *)
(** ** The filter *)

(** C4. Without positional arguments the filter stage cannot fail and
    does not call [NewFilter]: [Options.Filter] stays [nil], which every
    job matches, and that is the filter [Jobs] or [Start] receive. *)
Theorem no_patterns_match_all (f : flag.t) (w : World) :
  flag.args f = [] ->
  mkFilter f w = ([], Next None) /\
  (forall job, matches None job = true) /\
  (forall sched p o,
     In (EvStart p o) (fst (run f w sched)) \/
     In (EvJobs p o) (fst (run f w sched)) ->
     Options.Filter o = None /\
     forall job, matches (Options.Filter o) job = true) /\
  (forall sched patterns,
     ~ In (EvNewFilter patterns) (fst (run f w sched))).
Proof.
  intros Ha. pose proof (mkFilter_none f w Ha) as HF.
  split; [exact HF|]. split; [reflexivity|]. split.
  - assert (K : forall o pw flt,
               snd (mkFilter f w) = Next flt ->
               Options.Filter o = Options.Filter (mkOptions f pw flt) ->
               Options.Filter o = None /\
               forall job, matches (Options.Filter o) job = true).
    { intros o pw flt E1 E2. rewrite HF in E1. inversion E1; subst.
      rewrite E2. split; reflexivity. }
    intros sched p o [H|H].
    + apply run_Start in H.
      destruct H as (pw & flt & p0 & (_ & _ & Hflt & _) & _ & _ & ->).
      apply (K _ pw flt Hflt).
      exact (proj1 (proj2 (coerceReuse_rest _))).
    + apply run_Jobs in H.
      destruct H as (pw & flt & (_ & _ & Hflt & _) & _ & ->).
      apply (K _ pw flt Hflt). reflexivity.
  - intros sched patterns H.
    apply run_In_seq in H; [|reflexivity].
    rewrite run_seq_unfold in H. unfold run_seq_stages in H.
    pose proof (mkPassword_trace f w) as T1.
    destruct (modeCheck f); cbn [fst] in H; [in_cases H|].
    destruct (mkPassword f w) as [t1 [pw|e]]; cbn [fst snd] in *; subst t1;
      [|in_cases H].
    rewrite HF in H.
    destruct (Load w "."); cbn [fst] in H; [|in_cases H].
    destruct (flag.list f).
    + destruct (Jobs _ _); cbn [fst] in H; in_cases H.
    + destruct (Start w _ _); cbn [fst] in H; in_cases H.
Qed.

Lemma no_patterns_match_all_witness :
  mkFilter defaults world0 = ([], Next None) /\
  (forall job, matches None job = true) /\
  (forall sched p o,
     In (EvStart p o) (fst (run defaults world0 sched)) \/
     In (EvJobs p o) (fst (run defaults world0 sched)) ->
     Options.Filter o = None /\
     forall job, matches (Options.Filter o) job = true) /\
  (forall sched patterns,
     ~ In (EvNewFilter patterns) (fst (run defaults world0 sched))).
Proof. apply (no_patterns_match_all defaults world0). reflexivity. Defined.

(* ------------------------------------------------------------------ *)
(** ** Discard forces Reuse *)

(** C5. In a run without -list, [Start] receives options whose [Reuse]
    is [true] when -discard is set and -reuse-pid is 0, and is the -reuse
    flag as given otherwise; and [Start] is called as soon as the project
    is loaded. *)
Theorem discard_forces_reuse (f : flag.t) (w : World) (sched : list Action) :
  flag.list f = false ->
  (forall password filter project,
     Loaded f w password filter project ->
     exists p o, In (EvStart p o) (fst (run f w sched))) /\
  (forall p o,
     In (EvStart p o) (fst (run f w sched)) ->
     Options.Reuse o =
       (if flag.discard f && (flag.reusePid f =? 0)%Z then true
        else flag.reuse f) /\
     Options.Discard o = flag.discard f /\
     Options.ReusePid o = flag.reusePid f).
Proof.
  intros Hl. split.
  - intros pw flt p0 L. eexists _, _.
    exact (run_calls_Start f w sched pw flt p0 L Hl).
  - intros p o H. apply run_Start in H.
    destruct H as (pw & flt & p0 & _ & _ & _ & ->).
    rewrite coerceReuse_Reuse.
    destruct (coerceReuse_rest (mkOptions f pw flt))
      as (_ & _ & HD & HR & _).
    rewrite HD, HR. cbn. auto.
Qed.

Lemma discard_forces_reuse_witness :
  (exists p o, In (EvStart p o) (fst (run discarding world0 []))) /\
  (forall p o,
     In (EvStart p o) (fst (run discarding world0 [])) ->
     Options.Reuse o = true /\
     Options.Discard o = true /\
     Options.ReusePid o = 0%Z).
Proof.
  pose proof (discard_forces_reuse discarding world0 [] eq_refl) as [H1 H2].
  split.
  - apply (H1 "deadbeef01234567" None project0).
    repeat split; reflexivity.
  - exact H2.
Defined.

(* ------------------------------------------------------------------ *)
(** ** Listing *)

Lemma list_no_execution (f : flag.t) (w : World) (sched : list Action) :
  flag.list f = true ->
  (exists e, snd (run_seq f w) = Return e) /\
  forall ev, In ev (fst (run f w sched)) -> execution_event ev = false.
Proof.
  intros Hl.
  assert (R : exists e, snd (run_seq f w) = Return e).
  { rewrite run_seq_unfold. unfold run_seq_stages. rewrite Hl.
    destruct (modeCheck f); [cbn [snd]; eauto|].
    destruct (mkPassword f w) as [t1 [pw|e]]; [|cbn [snd]; eauto].
    destruct (mkFilter f w) as [t2 [flt|e]]; [|cbn [snd]; eauto].
    destruct (Load w "."); [|cbn [snd]; eauto].
    destruct (Jobs _ _); cbn [snd]; eauto. }
  split; [exact R|].
  intros ev H. unfold run in H. destruct R as [e R].
  destruct (run_seq f w) as [t o] eqn:E. cbn [snd] in R. subst o.
  cbn [fst] in H.
  assert (H' : In ev (fst (run_seq f w))) by (rewrite E; exact H).
  clear H E. rewrite run_seq_unfold in H'. unfold run_seq_stages in H'.
  rewrite Hl in H'.
  pose proof (mkPassword_trace f w) as T1.
  pose proof (mkFilter_trace f w) as T2.
  destruct (modeCheck f); cbn [fst] in H'.
  { in_cases H'; subst; reflexivity. }
  destruct (mkPassword f w) as [t1 [pw|e']]; cbn [fst snd] in *; subst t1.
  2:{ in_cases H'; subst; reflexivity. }
  destruct (mkFilter f w) as [t2 [flt|e']]; cbn [fst snd] in *; subst t2.
  2:{ in_cases H'; subst; reflexivity. }
  destruct (Load w "."); cbn [fst] in H'.
  2:{ in_cases H'; subst; reflexivity. }
  destruct (Jobs _ _); cbn [fst] in H'; in_cases H'; subst; reflexivity.
Qed.

(** C6. With -list and a loaded project, [run] calls [Jobs] on the
    project as [Load] returned it (no hook installed) with the options as
    built from the flags (no coercion of [Reuse]), prints the name of
    every job in the order of the sequence and returns nil, or returns
    the error of [Jobs] without printing. With -list, loaded or not,
    [run] has returned whatever the schedule, and nothing of an execution
    happens: no [Start], no signal channel, no goroutine, no [Wait], no
    [Stop]. *)
Theorem list_only_prints (f : flag.t) (w : World) (sched : list Action) :
  flag.list f = true ->
  (forall password filter project,
     Loaded f w password filter project ->
     let options := mkOptions f password filter in
     run f w sched =
       match Jobs (catalog project) options with
       | Ok jobs =>
           (loading f w ++ [EvJobs project options] ++
              map (fun job => EvPrintln (Name job)) jobs,
            Some None)
       | Err e =>
           (loading f w ++ [EvJobs project options], Some (Some e))
       end /\
     Options.Reuse options = flag.reuse f /\
     Load w "." = Ok project) /\
  (exists e, snd (run f w sched) = Some e) /\
  (forall ev, In ev (fst (run f w sched)) -> execution_event ev = false) /\
  (forall p o, ~ In (EvStart p o) (fst (run f w sched))).
Proof.
  intros Hl. split; [|split; [|split]].
  - intros pw flt p0 L options. split; [|split].
    + unfold run. rewrite (run_seq_Loaded _ _ _ _ _ L), Hl. cbv zeta.
      fold options. destruct (Jobs (catalog p0) options); reflexivity.
    + reflexivity.
    + apply L.
  - destruct (list_no_execution f w sched Hl) as [[e R] _].
    unfold run. destruct (run_seq f w) as [t o]. cbn [snd] in R. subst o.
    cbn [snd]. eauto.
  - apply (list_no_execution f w sched Hl).
  - intros p o H.
    apply (proj2 (list_no_execution f w sched Hl)) in H. discriminate.
Qed.

Lemma list_only_prints_witness :
  run listing world0 [Interrupt; GoStep; GoStep; MainStep] =
    (loading listing world0 ++
       [EvJobs project0 (mkOptions listing "deadbeef01234567" None);
        EvPrintln "lxd:ubuntu-16.04:tests/a";
        EvPrintln "lxd:ubuntu-16.04:tests/b"],
     Some None).
Proof.
  exact (proj1 (proj1 (list_only_prints listing world0
                         [Interrupt; GoStep; GoStep; MainStep] eq_refl)
                  "deadbeef01234567" None project0
                  (conj eq_refl (conj eq_refl (conj eq_refl eq_refl))))).
Defined.

(* ------------------------------------------------------------------ *)
(** ** After Start *)

(** When the sequential part hands over a runner, it is the one [Start]
    returned. *)
Lemma run_seq_Next (f : flag.t) (w : World) t runner :
  run_seq f w = (t, Next runner) ->
  exists password filter project,
    Loaded f w password filter project /\
    flag.list f = false /\
    Start w (installHook f project)
      (coerceReuse (mkOptions f password filter)) = Ok runner /\
    t = loading f w ++
        [EvStart (installHook f project)
           (coerceReuse (mkOptions f password filter));
         EvNotify; EvGo].
Proof.
  rewrite run_seq_unfold. unfold run_seq_stages, Loaded, loading.
  destruct (modeCheck f); [discriminate|].
  destruct (mkPassword f w) as [t1 [pw|e]]; [|discriminate].
  destruct (mkFilter f w) as [t2 [flt|e]]; [|discriminate].
  destruct (Load w ".") as [p0|e]; [|discriminate].
  destruct (flag.list f).
  - destruct (Jobs _ _); discriminate.
  - destruct (Start w _ _) as [r|e] eqn:ES; [|discriminate].
    intros H. inversion H; subst. exists pw, flt, p0. cbn [fst snd].
    split; [repeat split; reflexivity|]. split; [reflexivity|].
    split; [exact ES|]. rewrite <- !app_assoc. reflexivity.
Qed.

Lemma steps_app (runner : Runner) (s1 s2 : list Action) (s : Threads) :
  steps runner (s1 ++ s2) s = steps runner s2 (steps runner s1 s).
Proof. unfold steps. apply fold_left_app. Qed.

Lemma steps_mainPc (runner : Runner) (sched : list Action) (s : Threads) :
  ~ In MainStep sched -> mainPc (steps runner sched s) = mainPc s.
Proof.
  revert s. induction sched as [|a sched IH]; intros s H; [reflexivity|].
  cbn [steps fold_left]. change (fold_left (step runner) sched)
    with (steps runner sched).
  rewrite IH by (intros C; apply H; right; exact C).
  apply step_mainPc. intros C. apply H. left. exact C.
Qed.

(** On a command line that parsed, [main] exits with a status other
    than 0 exactly when [run] returned a non-nil error; the status is
    then 1 and the error went to stderr. When [run] returned nil the
    status is 0. So a successful -list exits with 0, and a campaign exits
    with 0 when [Wait] returned nil and with 1 when [Wait] returned an
    error. *)
Lemma main_exit_status (f : flag.t) (w : World) (sched : list Action) :
  ((exists code, snd (main f w sched) = Some code /\ code <> 0%Z) <->
   (exists err, snd (run f w sched) = Some (Some err))) /\
  (forall err, snd (run f w sched) = Some (Some err) ->
     main f w sched =
     (fst (run f w sched) ++
        [EvStderr ("error: " ++ err ++ newline)%string; EvExit 1],
      Some 1%Z)) /\
  (snd (run f w sched) = Some None ->
     main f w sched = (fst (run f w sched), Some 0%Z)) /\
  (forall password filter project jobs,
     flag.list f = true -> Loaded f w password filter project ->
     Jobs (catalog project) (mkOptions f password filter) = Ok jobs ->
     snd (main f w sched) = Some 0%Z) /\
  (forall t runner e,
     run_seq f w = (t, Next runner) ->
     mainResult (steps runner sched threads0) = Some e ->
     (exists b, e = Wait runner b) /\
     snd (main f w sched) =
       Some (match e with Some _ => 1 | None => 0 end)%Z).
Proof.
  split; [|split; [|split; [|split]]].
  - unfold main. destruct (run f w sched) as [t [[err|]|]]; cbn [snd];
      split.
    + eauto.
    + intros _. exists 1%Z. split; [reflexivity|discriminate].
    + intros (code & H & N). inversion H; subst. contradiction.
    + intros (err & H). discriminate.
    + intros (code & H & _). discriminate.
    + intros (err & H). discriminate.
  - intros err H. unfold main.
    destruct (run f w sched) as [t r]. cbn [fst snd] in *. subst r.
    reflexivity.
  - intros H. unfold main.
    destruct (run f w sched) as [t r]. cbn [fst snd] in *. subst r.
    reflexivity.
  - intros pw flt p0 jobs Hl L HJ. unfold main, run.
    rewrite (run_seq_Loaded _ _ _ _ _ L), Hl. cbv zeta. rewrite HJ.
    reflexivity.
  - intros t runner e HS HR. split.
    + pose proof (Inv_steps runner sched threads0 (Inv_threads0 runner))
        as I.
      unfold mainResult in HR.
      destruct (mainPc (steps runner sched threads0)) eqn:M;
        try discriminate.
      inversion HR; subst.
      destruct (inv_ret _ _ I e M) as (_ & b & Hb & _). eauto.
    + unfold main, run. rewrite HS. cbv zeta. rewrite HR.
      destruct e; reflexivity.
Qed.

(** C7, as the claim has it, fails. On a command line with a flag that
    is not defined, [flag.Parse()] ends the process with status 2 from
    inside [run]: the exit status is neither 0 nor 1, and [run] has not
    returned an error, it has not returned at all. *)
Lemma parse_exit_without_error :
  snd (spread (ParseExits 2) world0 []) = Some 2%Z /\
  snd (run_cmd (ParseExits 2) world0 []) = None /\
  ~ ((exists code,
        snd (spread (ParseExits 2) world0 []) = Some code /\
        code <> 0%Z) <->
     (exists err,
        snd (run_cmd (ParseExits 2) world0 []) = Some (Some err))).
Proof.
  split; [reflexivity|]. split; [reflexivity|].
  intros C. destruct C as [Hto Hfrom].
  assert (P : exists code,
            snd (spread (ParseExits 2) world0 []) = Some code /\
            code <> 0%Z)
    by (exists 2%Z; split; [reflexivity|discriminate]).
  destruct (Hto P) as [err E]. cbn in E. discriminate.
Qed.

(** C7, amended. When the command line parses, the process exits with a
    status other than 0 exactly when [run] returned a non-nil error; the
    status is then 1 and "error: ..." went to stderr; when [run]
    returned nil the status is 0, which is the case of a successful -list
    and of a campaign whose [Wait] returned nil. When the command line
    does not parse, [flag.Parse()] ends the process with its own status,
    and [run] does not return. *)
Theorem exit_status_parsed (f : flag.t) (status : Z) (w : World)
    (sched : list Action) :
  ((exists code,
      snd (spread (Parses f) w sched) = Some code /\ code <> 0%Z) <->
   (exists err, snd (run_cmd (Parses f) w sched) = Some (Some err))) /\
  (forall err, snd (run_cmd (Parses f) w sched) = Some (Some err) ->
     spread (Parses f) w sched =
     (fst (run_cmd (Parses f) w sched) ++
        [EvStderr ("error: " ++ err ++ newline)%string; EvExit 1],
      Some 1%Z)) /\
  (snd (run_cmd (Parses f) w sched) = Some None ->
     spread (Parses f) w sched =
     (fst (run_cmd (Parses f) w sched), Some 0%Z)) /\
  (forall password filter project jobs,
     flag.list f = true -> Loaded f w password filter project ->
     Jobs (catalog project) (mkOptions f password filter) = Ok jobs ->
     snd (spread (Parses f) w sched) = Some 0%Z) /\
  (forall t runner e,
     run_seq f w = (t, Next runner) ->
     mainResult (steps runner sched threads0) = Some e ->
     (exists b, e = Wait runner b) /\
     snd (spread (Parses f) w sched) =
       Some (match e with Some _ => 1 | None => 0 end)%Z) /\
  spread (ParseExits status) w sched =
    ([EvMrandSeed; EvExit status], Some status) /\
  snd (run_cmd (ParseExits status) w sched) = None.
Proof.
  cbn [spread run_cmd].
  destruct (main_exit_status f w sched) as (H1 & H2 & H3 & H4 & H5).
  split; [exact H1|]. split; [exact H2|]. split; [exact H3|].
  split; [exact H4|]. split; [exact H5|]. split; reflexivity.
Qed.

Lemma exit_status_parsed_witness :
  spread (Parses shell_abend) world0 [] =
    (prelude shell_abend ++
       [EvStderr ("error: " ++ conflict ++ newline)%string; EvExit 1],
     Some 1%Z) /\
  snd (spread (Parses listing) world0 []) = Some 0%Z /\
  snd (spread (Parses defaults) world0 [MainStep; MainStep]) = Some 0%Z /\
  snd (spread (Parses defaults) world_failing [MainStep; MainStep]) =
    Some 1%Z /\
  spread (ParseExits 2) world0 [] = ([EvMrandSeed; EvExit 2], Some 2%Z).
Proof.
  split; [|split; [|split; [|split]]].
  - apply (proj1 (proj2 (exit_status_parsed shell_abend 2 world0 []))).
    reflexivity.
  - apply (proj1 (proj2 (proj2 (proj2
             (exit_status_parsed listing 2 world0 []))))
             "deadbeef01234567" None project0 [jobA; jobB]).
    + reflexivity.
    + repeat split; reflexivity.
    + reflexivity.
  - rewrite (proj1 (proj2 (proj2 (exit_status_parsed defaults 2 world0
                                    [MainStep; MainStep]))) eq_refl).
    reflexivity.
  - pose proof (proj1 (proj2 (proj2 (proj2 (proj2
        (exit_status_parsed defaults 2 world_failing
           [MainStep; MainStep])))))
        (fst (run_seq defaults world_failing)) runner1
        (Some "unsuccessful tasks: 1") eq_refl eq_refl) as [_ H].
    exact H.
  - apply (proj1 (proj2 (proj2 (proj2 (proj2 (proj2
             (exit_status_parsed defaults 2 world0 []))))))).
Defined.

(** C8. Once [Start] has succeeded, what [run] returns is what
    [runner.Wait()] returned, after [Wait] was called; neither an
    interrupt nor the goroutine makes the main thread return or keeps it
    from returning: whatever has happened, the main thread's two moves
    (calling [Wait], [Wait] coming back) end [run] with the result of
    [Wait]. Every call of [runner.Stop()] comes after an interrupt, and
    there is at most one. *)
Theorem wait_always (f : flag.t) (w : World) (sched : list Action)
    (t : list Event) (runner : Runner) :
  run_seq f w = (t, Next runner) ->
  let s := steps runner sched threads0 in
  (exists p o, In (EvStart p o) t /\ Start w p o = Ok runner) /\
  run f w sched = (t ++ trace s, mainResult s) /\
  (forall e, snd (run f w sched) = Some e ->
     In (EvWaitReturn e) (trace s) /\
     precedes EvWaitCall (EvWaitReturn e) (trace s) /\
     exists b, e = Wait runner b /\ (b = true -> In EvStop (trace s))) /\
  precedes EvInterrupt EvStop (trace s) /\
  stops (trace s) <= 1 /\
  (forall others, ~ In MainStep others ->
     snd (run f w (sched ++ others)) = snd (run f w sched)) /\
  (forall others, ~ In MainStep others ->
     exists b,
       snd (run f w (sched ++ others ++ [MainStep; MainStep])) =
       Some (Wait runner b)).
Proof.
  intros HS s.
  pose proof (Inv_steps runner sched threads0 (Inv_threads0 runner)) as I.
  fold s in I.
  assert (R : forall sc, run f w sc =
                (t ++ trace (steps runner sc threads0),
                 mainResult (steps runner sc threads0))).
  { intros sc. unfold run. rewrite HS. reflexivity. }
  split; [|split; [|split; [|split; [|split; [|split]]]]].
  - destruct (run_seq_Next _ _ _ _ HS)
      as (pw & flt & p0 & _ & _ & HSt & ->).
    eexists _, _. split; [|exact HSt].
    apply in_or_app. right. left. reflexivity.
  - apply R.
  - intros e H. rewrite R in H. cbn [snd] in H. fold s in H.
    unfold mainResult in H. destruct (mainPc s) eqn:M; try discriminate.
    inversion H; subst.
    destruct (inv_ret _ _ I e M) as (H1 & b & H2 & H3).
    split; [exact H1|]. split; [apply (inv_wait _ _ I)|]. eauto.
  - apply I.
  - rewrite (inv_once _ _ I). destruct (goPc s); lia.
  - intros others H. rewrite !R. cbn [snd]. rewrite steps_app.
    unfold mainResult. rewrite steps_mainPc by exact H. reflexivity.
  - intros others H. rewrite R. cbn [snd].
    rewrite app_assoc, steps_app.
    set (s' := steps runner (sched ++ others) threads0).
    pose proof (Inv_steps runner (sched ++ others ++ [MainStep; MainStep])
                  threads0 (Inv_threads0 runner)) as I'.
    rewrite app_assoc, steps_app in I'. fold s' in I'.
    destruct (main_returns runner s') as [e He].
    unfold mainResult in He.
    destruct (mainPc (steps runner [MainStep; MainStep] s')) eqn:M;
      try discriminate.
    inversion He; subst.
    destruct (inv_ret _ _ I' e M) as (_ & b & Hb & _).
    exists b. unfold mainResult. rewrite M, Hb. reflexivity.
Qed.

Lemma wait_always_witness :
  snd (run defaults world0 ([Interrupt; GoStep; GoStep] ++ [])) =
    snd (run defaults world0 [Interrupt; GoStep; GoStep]) /\
  precedes EvInterrupt EvStop
    (trace (steps runner0 [Interrupt; GoStep; GoStep; MainStep; MainStep]
              threads0)).
Proof.
  split.
  - apply (proj1 (proj2 (proj2 (proj2 (proj2 (proj2
             (wait_always defaults world0 [Interrupt; GoStep; GoStep]
                (fst (run_seq defaults world0)) runner0 eq_refl))))))).
    intros C; exact C.
  - apply (proj1 (proj2 (proj2 (proj2
             (wait_always defaults world0
                [Interrupt; GoStep; GoStep; MainStep; MainStep]
                (fst (run_seq defaults world0)) runner0 eq_refl))))).
Defined.

(* ------------------------------------------------------------------ *)
(** ** The pre-restore hook *)

(** C9. In a run without -list, the project that [Start] receives has
    [PreRestoreProject] set to the closure over [downloadDir], whatever
    the value of -download: the guard tests the pointer that
    [flag.String] returned, which is never nil. With -download left at
    its default, the empty string, the hook is installed all the same
    (and, called, does nothing). [Start] is called as soon as the project
    is loaded. *)
Theorem hook_always_installed (f : flag.t) (w : World)
    (sched : list Action) :
  flag.list f = false ->
  download_ptr f <> None /\
  (forall password filter project,
     Loaded f w password filter project ->
     exists p o, In (EvStart p o) (fst (run f w sched))) /\
  (forall p o,
     In (EvStart p o) (fst (run f w sched)) ->
     exists hook,
       PreRestoreProject p = Some hook /\
       forall client job project os,
         hook client job project os =
         downloadDir (flag.download f) client os) /\
  (flag.download f = "" ->
   forall client job project os,
     downloadHook f client job project os = ([], None)).
Proof.
  intros Hl. split; [discriminate|]. split; [|split].
  - intros pw flt p0 L. eexists _, _.
    exact (run_calls_Start f w sched pw flt p0 L Hl).
  - intros p o H. apply run_Start in H.
    destruct H as (pw & flt & p0 & _ & _ & -> & _).
    exists (downloadHook f). split; reflexivity.
  - intros H client job project os. unfold downloadHook. rewrite H.
    reflexivity.
Qed.

Lemma hook_always_installed_witness :
  flag.download defaults = "" /\
  (forall p o,
     In (EvStart p o) (fst (run defaults world0 [])) ->
     exists hook,
       PreRestoreProject p = Some hook /\
       forall client job project os,
         hook client job project os =
         downloadDir (flag.download defaults) client os) /\
  exists p o, In (EvStart p o) (fst (run defaults world0 [])).
Proof.
  pose proof (hook_always_installed defaults world0 [] eq_refl)
    as (_ & H1 & H2 & _).
  split; [reflexivity|]. split; [exact H2|].
  apply (H1 "deadbeef01234567" None project0).
  repeat split; reflexivity.
Defined.

(* ------------------------------------------------------------------ *)
(** ** downloadDir *)

(** C10. A download string that does not split on the colon into exactly
    two parts (which is to say: that does not hold exactly one colon)
    makes [downloadDir] return nil without touching anything: no
    directory, no tar process, no [RecvTar]. With exactly two parts, once
    the directory is made and tar is started, the result is the error of
    [RecvTar] when there is one, and the error of the tar process
    otherwise. *)
Theorem downloadDir_parts (downloadString : string) (client : Client)
    (os : OS) :
  (List.length (Split colon downloadString) <> 2 ->
     downloadDir downloadString client os = ([], None)) /\
  (List.length (Split colon downloadString) = 2 <->
     Count colon downloadString = 1) /\
  (forall source dest,
     Split colon downloadString = [source; dest] ->
     MkdirAll os dest 493%N = None ->
     cmd_Start os "tar" ["xJ"] dest = None ->
     downloadDir downloadString client os =
     ([IoMkdirAll dest 493%N; IoPipe; IoCmdStart "tar" ["xJ"] dest;
       IoRecvTar source []; IoPipeClose; IoCmdWait],
      match RecvTar client source [] with
      | Some err => Some err
      | None => cmd_Wait os
      end)).
Proof.
  split; [|split].
  - intros H. unfold downloadDir.
    destruct (Split colon downloadString) as [|a [|b [|c l]]];
      try reflexivity.
    contradiction H. reflexivity.
  - rewrite Split_length. lia.
  - intros source dest HS HM HC. unfold downloadDir. rewrite HS.
    cbv beta iota zeta delta [bind call pure ret check returned].
    rewrite HM. cbv beta iota zeta. rewrite HC. cbv beta iota zeta.
    cbn [app firstErr].
    destruct (RecvTar client source []) as [err|];
      [reflexivity|]. destruct (cmd_Wait os); reflexivity.
Qed.

Lemma downloadDir_parts_witness :
  downloadDir "" client0 os0 = ([], None) /\
  downloadDir "artifacts" client0 os0 = ([], None) /\
  downloadDir "a:b:c" client0 os0 = ([], None) /\
  downloadDir "/var/log:logs" client0 os0 =
    ([IoMkdirAll "logs" 493%N; IoPipe; IoCmdStart "tar" ["xJ"] "logs";
      IoRecvTar "/var/log" []; IoPipeClose; IoCmdWait],
     Some "cannot receive tar").
Proof.
  split; [|split; [|split]].
  - apply (proj1 (downloadDir_parts "" client0 os0)).
    cbn. discriminate.
  - apply (proj1 (downloadDir_parts "artifacts" client0 os0)).
    cbn. discriminate.
  - apply (proj1 (downloadDir_parts "a:b:c" client0 os0)).
    cbn. discriminate.
  - apply (proj2 (proj2 (downloadDir_parts "/var/log:logs" client0 os0))
             "/var/log" "logs"); reflexivity.
Defined.

(* ------------------------------------------------------------------ *)
(** ** Strings: Split, Join, Index and slices *)

Lemma Count_cons_free (sep c : ascii) (s : string) :
  free_of sep (String c s) <-> Ascii.eqb c sep = false /\ free_of sep s.
Proof.
  unfold free_of. cbn [Count]. destruct (Ascii.eqb c sep); split.
  - intros H. discriminate.
  - intros [H _]. discriminate.
  - intros H. auto.
  - intros [_ H]. exact H.
Qed.

Lemma Split_nonempty (sep : ascii) (s : string) : Split sep s <> [].
Proof.
  intros H. pose proof (Split_length sep s) as L. rewrite H in L.
  discriminate.
Qed.

Lemma Split_free (sep : ascii) (s : string) :
  free_of sep s -> Split sep s = [s].
Proof.
  induction s as [|c s IH]; intros H; [reflexivity|].
  apply Count_cons_free in H. destruct H as [Hc Hs].
  cbn [Split]. rewrite Hc, (IH Hs). reflexivity.
Qed.

Lemma Split_app (sep : ascii) (a b : string) :
  free_of sep a ->
  Split sep (a ++ String sep b)%string = a :: Split sep b.
Proof.
  induction a as [|c a IH]; intros H.
  - cbn [String.append Split]. rewrite Ascii.eqb_refl. reflexivity.
  - apply Count_cons_free in H. destruct H as [Hc Ha].
    cbn [String.append Split]. rewrite Hc, (IH Ha). reflexivity.
Qed.

Lemma Join_Split (sep : ascii) (s : string) : Join sep (Split sep s) = s.
Proof.
  induction s as [|c s IH]; [reflexivity|].
  cbn [Split]. destruct (Ascii.eqb_spec c sep) as [->|N].
  - destruct (Split sep s) as [|part parts] eqn:E.
    + exfalso. exact (Split_nonempty _ _ E).
    + cbn [Join String.append]. cbn [Join] in IH. rewrite IH. reflexivity.
  - destruct (Split sep s) as [|part parts] eqn:E.
    + exfalso. exact (Split_nonempty _ _ E).
    + destruct parts as [|part' parts]; cbn [Join String.append] in *;
        rewrite IH; reflexivity.
Qed.

Lemma Split_parts_free (sep : ascii) (s : string) :
  Forall (free_of sep) (Split sep s).
Proof.
  induction s as [|c s IH]; [repeat constructor|].
  cbn [Split]. destruct (Ascii.eqb c sep) eqn:Ec.
  - constructor; [reflexivity|exact IH].
  - destruct (Split sep s) as [|part parts] eqn:E.
    + exfalso. exact (Split_nonempty _ _ E).
    + inversion IH; subst. constructor; [|assumption].
      apply Count_cons_free. auto.
Qed.

Lemma Split_Join (sep : ascii) (parts : list string) :
  parts <> [] -> Forall (free_of sep) parts ->
  Split sep (Join sep parts) = parts.
Proof.
  induction parts as [|part rest IH]; intros N F; [contradiction|].
  inversion F as [|? ? Hp Hr]; subst.
  destruct rest as [|part' rest].
  - cbn [Join]. apply Split_free, Hp.
  - change (Join sep (part :: part' :: rest))
      with (part ++ String sep (Join sep (part' :: rest)))%string.
    rewrite (Split_app _ _ _ Hp), IH; [reflexivity|discriminate|exact Hr].
Qed.

(** [Split] gives exactly two parts on the strings with one
    separator. *)
Lemma Split_two (sep : ascii) (s a b : string) :
  Split sep s = [a; b] <->
  s = (a ++ String sep b)%string /\ free_of sep a /\ free_of sep b.
Proof.
  split.
  - intros H. pose proof (Join_Split sep s) as J.
    pose proof (Split_parts_free sep s) as F. rewrite H in J, F.
    cbn [Join] in J.
    inversion F as [|? ? Ha F']. inversion F' as [|? ? Hb _]. auto.
  - intros (-> & Ha & Hb). rewrite (Split_app _ _ _ Ha), (Split_free _ _ Hb).
    reflexivity.
Qed.

Lemma Index_lower (sep : ascii) (s : string) : (-1 <= Index sep s)%Z.
Proof.
  induction s as [|c s IH]; cbn [Index]; [lia|].
  destruct (Ascii.eqb c sep); [lia|].
  destruct (Z.ltb_spec (Index sep s) 0); lia.
Qed.

(** [Index] answers -1 on a string without the separator, and otherwise
    the length of the part before the first one. *)
Lemma Index_spec (sep : ascii) (s : string) :
  (Index sep s = (-1)%Z /\ free_of sep s) \/
  (exists a b, s = (a ++ String sep b)%string /\ free_of sep a /\
               Index sep s = Z.of_nat (String.length a)).
Proof.
  induction s as [|c s IH]; [left; split; reflexivity|].
  cbn [Index]. destruct (Ascii.eqb_spec c sep) as [->|N].
  - right. exists EmptyString, s. repeat split; reflexivity.
  - assert (Ec : Ascii.eqb c sep = false)
      by (destruct (Ascii.eqb_spec c sep); [contradiction|reflexivity]).
    destruct IH as [[Hi Hf]|(a & b & -> & Ha & Hi)].
    + left. rewrite Hi. cbn. split; [reflexivity|].
      apply Count_cons_free. auto.
    + right. exists (String c a), b. rewrite Hi.
      destruct (Z.ltb_spec (Z.of_nat (String.length a)) 0); [lia|].
      repeat split.
      * apply Count_cons_free. auto.
      * cbn [String.length]. lia.
Qed.

Lemma Index_app (sep : ascii) (a b : string) :
  free_of sep a ->
  Index sep (a ++ String sep b)%string = Z.of_nat (String.length a).
Proof.
  induction a as [|c a IH]; intros H.
  - cbn [String.append Index]. rewrite Ascii.eqb_refl. reflexivity.
  - apply Count_cons_free in H. destruct H as [Hc Ha].
    cbn [String.append Index String.length]. rewrite Hc, (IH Ha).
    destruct (Z.ltb_spec (Z.of_nat (String.length a)) 0); lia.
Qed.

Lemma slice_to_app (a b : string) :
  slice_to (String.length a) (a ++ b)%string = a.
Proof.
  induction a as [|c a IH]; cbn [String.length String.append slice_to].
  - destruct b; reflexivity.
  - rewrite IH. reflexivity.
Qed.

Lemma slice_from_app (a b : string) (c : ascii) :
  slice_from (S (String.length a)) (a ++ String c b)%string = b.
Proof.
  induction a as [|d a IH]; cbn [String.length String.append slice_from].
  - destruct b; reflexivity.
  - exact IH.
Qed.

(** What [parseReuseEntry] makes of an entry with a colon after a
    non-empty colon-free head. *)
Lemma parseReuseEntry_app (a rest : string) :
  a <> EmptyString -> free_of colon a ->
  parseReuseEntry (a ++ String colon rest)%string = (a, Split comma rest).
Proof.
  intros N F. unfold parseReuseEntry. rewrite (Index_app _ _ _ F).
  destruct a as [|c a]; [contradiction|].
  assert (P : (Z.of_nat (String.length (String c a)) >? 0)%Z = true).
  { cbn [String.length]. apply Z.gtb_lt. lia. }
  rewrite P.
  replace (Z.to_nat (Z.of_nat (String.length (String c a)) + 1))
    with (S (String.length (String c a))) by lia.
  rewrite Nat2Z.id, slice_to_app, slice_from_app. reflexivity.
Qed.

(** The entries [parseReuseEntry] turns down. *)
Lemma parseReuseEntry_none (entry : string) :
  free_of colon entry \/ (exists rest, entry = String colon rest) ->
  parseReuseEntry entry = (EmptyString, []).
Proof.
  intros [F|[rest ->]]; unfold parseReuseEntry.
  - destruct (Index_spec colon entry) as [[Hi _]|(a & b & -> & _ & _)].
    + rewrite Hi. reflexivity.
    + exfalso. clear -F. induction a as [|c a IH].
      * cbn in F. unfold free_of in F. cbn in F. discriminate.
      * cbn [String.append] in F. apply Count_cons_free in F.
        apply IH, F.
  - cbn [Index]. rewrite Ascii.eqb_refl. reflexivity.
Qed.

(** Every entry is of one of the two kinds. *)
Lemma entry_cases (entry : string) :
  (free_of colon entry \/ exists rest, entry = String colon rest) \/
  (exists a rest, a <> EmptyString /\ free_of colon a /\
                  entry = (a ++ String colon rest)%string).
Proof.
  destruct (Index_spec colon entry) as [[_ F]|(a & b & -> & Fa & _)].
  - left. left. exact F.
  - destruct a as [|c a].
    + left. right. exists b. reflexivity.
    + right. exists (String c a), b. repeat split; [discriminate|exact Fa].
Qed.

(* ------------------------------------------------------------------ *)
(** ** firstErr: the first error wins *)

(** X1. [firstErr] returns nil exactly when every argument is nil, and
    otherwise the first argument that is not nil: everything before it
    is nil. *)
Theorem firstErr_first (errs : list (option error)) :
  (firstErr errs = None <-> forall e, In e errs -> e = None) /\
  (forall err, firstErr errs = Some err ->
     exists before after,
       errs = before ++ Some err :: after /\
       forall e, In e before -> e = None).
Proof.
  induction errs as [|[e0|] errs [IH1 IH2]].
  - split; [split; [intros _ e []|reflexivity]|discriminate].
  - split.
    + split; [discriminate|]. intros H.
      specialize (H (Some e0) (or_introl eq_refl)). discriminate.
    + intros err H. cbn [firstErr] in H. inversion H; subst.
      exists [], errs. split; [reflexivity|intros e []].
  - cbn [firstErr]. split.
    + rewrite IH1. split.
      * intros H e [<-|He]; [reflexivity|exact (H e He)].
      * intros H e He. apply H. right. exact He.
    + intros err H. destruct (IH2 err H) as (before & after & -> & Hb).
      exists (None :: before), after. split; [reflexivity|].
      intros e [<-|He]; [reflexivity|exact (Hb e He)].
Qed.

Lemma firstErr_first_witness :
  exists before after,
    [None; Some "a"; Some "b"] = before ++ Some "a" :: after /\
    forall e, In e before -> e = None.
Proof.
  apply (proj2 (firstErr_first [None; Some "a"; Some "b"]) "a").
  reflexivity.
Defined.

(** X2. [firstErr] over two lists in a row is [firstErr] of the first
    when that is an error, and [firstErr] of the second otherwise. *)
Theorem firstErr_app (errs1 errs2 : list (option error)) :
  firstErr (errs1 ++ errs2) =
  match firstErr errs1 with
  | Some err => Some err
  | None => firstErr errs2
  end.
Proof.
  induction errs1 as [|[e|] errs1 IH]; cbn [app firstErr];
    [reflexivity|reflexivity|exact IH].
Qed.

(* ------------------------------------------------------------------ *)
(** ** downloadDir: its other ways out *)

(** [downloadDir] on a string of two parts, answer by answer. *)
Lemma downloadDir_two (downloadString source dest : string)
    (client : Client) (os : OS) :
  Split colon downloadString = [source; dest] ->
  downloadDir downloadString client os =
  match MkdirAll os dest 493%N with
  | Some err =>
      ([IoMkdirAll dest 493%N],
       Some (Errorf "cannot create artifacts directory" err))
  | None =>
      match cmd_Start os "tar" ["xJ"] dest with
      | Some err =>
          ([IoMkdirAll dest 493%N; IoPipe; IoCmdStart "tar" ["xJ"] dest],
           Some (Errorf "cannot start unpacking tar" err))
      | None =>
          ([IoMkdirAll dest 493%N; IoPipe; IoCmdStart "tar" ["xJ"] dest;
            IoRecvTar source []; IoPipeClose; IoCmdWait],
           firstErr [RecvTar client source []; cmd_Wait os])
      end
  end.
Proof.
  intros HS. unfold downloadDir. rewrite HS.
  cbv beta iota zeta delta [bind call pure ret check returned].
  destruct (MkdirAll os dest 493%N); [reflexivity|].
  cbv beta iota zeta.
  destruct (cmd_Start os "tar" ["xJ"] dest); reflexivity.
Qed.

Lemma downloadDir_other (downloadString : string) :
  List.length (Split colon downloadString) <> 2 ->
  forall client os, downloadDir downloadString client os = ([], None).
Proof.
  intros H client os. unfold downloadDir.
  destruct (Split colon downloadString) as [|a [|b [|c l]]];
    try reflexivity.
  contradiction H. reflexivity.
Qed.

Lemma Split_two_or_not (s : string) :
  List.length (Split colon s) <> 2 \/
  exists source dest, Split colon s = [source; dest].
Proof.
  destruct (Split colon s) as [|a [|b [|c l]]]; cbn [List.length];
    try (left; discriminate).
  right. eauto.
Qed.

(** X3. When the destination directory cannot be made, [downloadDir]
    returns "cannot create artifacts directory: ..." and has done nothing
    else: no pipe, no tar process, no [RecvTar]. *)
Theorem downloadDir_mkdir_fails (downloadString source dest : string)
    (client : Client) (os : OS) (err : error) :
  Split colon downloadString = [source; dest] ->
  MkdirAll os dest 493%N = Some err ->
  downloadDir downloadString client os =
  ([IoMkdirAll dest 493%N],
   Some ("cannot create artifacts directory: " ++ err)%string).
Proof.
  intros HS HM. rewrite (downloadDir_two _ _ _ _ _ HS), HM. reflexivity.
Qed.

Lemma downloadDir_mkdir_fails_witness :
  downloadDir "/var/log:logs" client_ok os_readonly =
  ([IoMkdirAll "logs" 493%N],
   Some "cannot create artifacts directory: permission denied").
Proof.
  apply (downloadDir_mkdir_fails "/var/log:logs" "/var/log" "logs"
           client_ok os_readonly "permission denied"); reflexivity.
Defined.

(** X4. When tar cannot be started, [downloadDir] returns "cannot start
    unpacking tar: ..." straight away: [RecvTar] is not called, the pipe
    is not closed and nothing is waited for. *)
Theorem downloadDir_tar_fails (downloadString source dest : string)
    (client : Client) (os : OS) (err : error) :
  Split colon downloadString = [source; dest] ->
  MkdirAll os dest 493%N = None ->
  cmd_Start os "tar" ["xJ"] dest = Some err ->
  downloadDir downloadString client os =
  ([IoMkdirAll dest 493%N; IoPipe; IoCmdStart "tar" ["xJ"] dest],
   Some ("cannot start unpacking tar: " ++ err)%string).
Proof.
  intros HS HM HC. rewrite (downloadDir_two _ _ _ _ _ HS), HM, HC.
  reflexivity.
Qed.

Lemma downloadDir_tar_fails_witness :
  downloadDir "/var/log:logs" client_ok os_notar =
  ([IoMkdirAll "logs" 493%N; IoPipe; IoCmdStart "tar" ["xJ"] "logs"],
   Some "cannot start unpacking tar: executable file not found").
Proof.
  apply (downloadDir_tar_fails "/var/log:logs" "/var/log" "logs"
           client_ok os_notar "executable file not found"); reflexivity.
Defined.

(** X5. [downloadDir] returns nil in two cases only: the string does not
    split into two parts (and nothing was downloaded), or the directory
    was made, tar started, [RecvTar] succeeded and tar ended well. *)
Theorem downloadDir_nil (downloadString : string) (client : Client)
    (os : OS) :
  snd (downloadDir downloadString client os) = None <->
  List.length (Split colon downloadString) <> 2 \/
  exists source dest,
    Split colon downloadString = [source; dest] /\
    MkdirAll os dest 493%N = None /\
    cmd_Start os "tar" ["xJ"] dest = None /\
    RecvTar client source [] = None /\
    cmd_Wait os = None.
Proof.
  destruct (Split_two_or_not downloadString) as [N|(source & dest & HS)].
  - rewrite (downloadDir_other _ N). split; auto.
  - rewrite (downloadDir_two _ _ _ client os HS). split.
    + intros H. right. exists source, dest.
      destruct (MkdirAll os dest 493%N); [discriminate|].
      destruct (cmd_Start os "tar" ["xJ"] dest); [discriminate|].
      cbn [snd firstErr] in H.
      destruct (RecvTar client source []); [discriminate|].
      destruct (cmd_Wait os); [discriminate|]. auto.
    + intros [N|(s' & d' & HS' & HM & HC & HR & HW)].
      * rewrite HS in N. contradiction N. reflexivity.
      * rewrite HS in HS'. inversion HS'; subst.
        rewrite HM, HC, HR, HW. reflexivity.
Qed.

Lemma downloadDir_nil_witness :
  snd (downloadDir "no-colon-here" client0 os0) = None /\
  snd (downloadDir "/var/log:logs" client_ok os_ok) = None.
Proof.
  split.
  - apply (proj2 (downloadDir_nil "no-colon-here" client0 os0)).
    left. cbn. discriminate.
  - apply (proj2 (downloadDir_nil "/var/log:logs" client_ok os_ok)).
    right. exists "/var/log", "logs". repeat split; reflexivity.
Defined.

(** X6. [RecvTar] is called with the first part as the source and no
    excludes, after the directory was made and tar started; and whenever
    it is called, also when it fails, [downloadDir] goes on to close the
    pipe and wait for tar, in that order, as the last things it does. *)
Theorem downloadDir_cleanup (downloadString : string) (client : Client)
    (os : OS) (source : string) (excludes : list string) :
  In (IoRecvTar source excludes)
     (fst (downloadDir downloadString client os)) ->
  excludes = [] /\
  exists dest,
    Split colon downloadString = [source; dest] /\
    fst (downloadDir downloadString client os) =
    [IoMkdirAll dest 493%N; IoPipe; IoCmdStart "tar" ["xJ"] dest;
     IoRecvTar source []; IoPipeClose; IoCmdWait].
Proof.
  destruct (Split_two_or_not downloadString) as [N|(src & dest & HS)].
  - rewrite (downloadDir_other _ N). intros [].
  - rewrite (downloadDir_two _ _ _ client os HS).
    destruct (MkdirAll os dest 493%N); cbn [fst].
    { intros [H|[]]. discriminate. }
    destruct (cmd_Start os "tar" ["xJ"] dest); cbn [fst].
    { intros [H|[H|[H|[]]]]; discriminate. }
    intros [H|[H|[H|[H|[H|[H|[]]]]]]]; try discriminate.
    inversion H; subst. split; [reflexivity|]. exists dest. auto.
Qed.

Lemma downloadDir_cleanup_witness :
  ([] : list string) = [] /\
  exists dest,
    Split colon "/var/log:logs" = ["/var/log"; dest] /\
    fst (downloadDir "/var/log:logs" client0 os0) =
    [IoMkdirAll dest 493%N; IoPipe; IoCmdStart "tar" ["xJ"] dest;
     IoRecvTar "/var/log" []; IoPipeClose; IoCmdWait].
Proof.
  apply (downloadDir_cleanup "/var/log:logs" client0 os0 "/var/log" []).
  cbn. auto 10.
Defined.

(** X7. [downloadDir] acts exactly on the strings "source:dest" whose
    source and dest hold no colon (either may be empty): on such a string
    the first thing it does is make [dest], and on any other string it
    does nothing at all. *)
Theorem downloadDir_source_dest (client : Client) (os : OS) :
  (forall source dest,
     free_of colon source -> free_of colon dest ->
     exists rest,
       fst (downloadDir (source ++ String colon dest) client os) =
       IoMkdirAll dest 493%N :: rest) /\
  (forall downloadString,
     fst (downloadDir downloadString client os) <> [] ->
     exists source dest,
       downloadString = (source ++ String colon dest)%string /\
       free_of colon source /\ free_of colon dest).
Proof.
  split.
  - intros source dest Hs Hd.
    assert (HS : Split colon (source ++ String colon dest) = [source; dest])
      by (apply Split_two; auto).
    rewrite (downloadDir_two _ _ _ client os HS).
    destruct (MkdirAll os dest 493%N); [eexists; reflexivity|].
    destruct (cmd_Start os "tar" ["xJ"] dest); eexists; reflexivity.
  - intros s H.
    destruct (Split_two_or_not s) as [N|(source & dest & HS)].
    + rewrite (downloadDir_other _ N) in H. contradiction H. reflexivity.
    + exists source, dest. apply Split_two. exact HS.
Qed.

Lemma downloadDir_source_dest_witness :
  (exists rest,
     fst (downloadDir ("" ++ String colon "") client0 os0) =
     IoMkdirAll "" 493%N :: rest) /\
  exists source dest,
    "a:b" = (source ++ String colon dest)%string /\
    free_of colon source /\ free_of colon dest.
Proof.
  split.
  - apply (proj1 (downloadDir_source_dest client0 os0) "" "");
      reflexivity.
  - apply (proj2 (downloadDir_source_dest client0 os0) "a:b").
    cbn. discriminate.
Defined.

(* ------------------------------------------------------------------ *)
(** ** parseReuseEntry: backend:addr,addr,... *)

(** X8. [parseReuseEntry] reads back what was written as
    "backend:addr1,addr2,...": for a non-empty backend without colon and
    at least one address, none with a comma, it returns the backend and
    the addresses. Only the first colon separates, so an address may hold
    colons of its own. *)
Theorem parseReuseEntry_roundtrip (backend : string)
    (addrs : list string) :
  backend <> EmptyString -> free_of colon backend ->
  addrs <> [] -> Forall (free_of comma) addrs ->
  parseReuseEntry (backend ++ String colon (Join comma addrs)) =
  (backend, addrs).
Proof.
  intros N F NA FA. rewrite (parseReuseEntry_app _ _ N F).
  rewrite (Split_Join _ _ NA FA). reflexivity.
Qed.

Lemma parseReuseEntry_roundtrip_witness :
  parseReuseEntry
    ("lxd" ++ String colon (Join comma ["10.0.0.1:22"; "10.0.0.2:22"])) =
  ("lxd", ["10.0.0.1:22"; "10.0.0.2:22"]).
Proof.
  apply (parseReuseEntry_roundtrip "lxd" ["10.0.0.1:22"; "10.0.0.2:22"]).
  - discriminate.
  - reflexivity.
  - discriminate.
  - repeat constructor.
Defined.

(** X9. Whenever [parseReuseEntry] returns a non-empty backend, the
    entry is that backend, a colon, and the returned addresses joined by
    commas; the backend holds no colon, there is at least one address and
    no address holds a comma. *)
Theorem parseReuseEntry_decode (entry backend : string)
    (addrs : list string) :
  parseReuseEntry entry = (backend, addrs) ->
  backend <> EmptyString ->
  entry = (backend ++ String colon (Join comma addrs))%string /\
  free_of colon backend /\
  addrs <> [] /\
  Forall (free_of comma) addrs.
Proof.
  intros H N.
  destruct (entry_cases entry) as [R|(a & rest & Na & Fa & ->)].
  - rewrite (parseReuseEntry_none _ R) in H. inversion H; subst.
    contradiction.
  - rewrite (parseReuseEntry_app _ _ Na Fa) in H. inversion H; subst.
    rewrite Join_Split. repeat split.
    + exact Fa.
    + apply Split_nonempty.
    + apply Split_parts_free.
Qed.

Lemma parseReuseEntry_decode_witness :
  "qemu:localhost:59301" =
    ("qemu" ++ String colon (Join comma ["localhost:59301"]))%string /\
  free_of colon "qemu" /\
  ["localhost:59301"] <> [] /\
  Forall (free_of comma) ["localhost:59301"].
Proof.
  apply (parseReuseEntry_decode "qemu:localhost:59301" "qemu"
           ["localhost:59301"]).
  - reflexivity.
  - discriminate.
Defined.

(** X10. [parseReuseEntry] returns the empty backend exactly for the
    entries without a colon and the entries that start with one; it then
    returns no addresses, and in every other case at least one. *)
Theorem parseReuseEntry_reject (entry : string) :
  (fst (parseReuseEntry entry) = EmptyString <->
   free_of colon entry \/ exists rest, entry = String colon rest) /\
  (snd (parseReuseEntry entry) = [] <->
   fst (parseReuseEntry entry) = EmptyString).
Proof.
  destruct (entry_cases entry) as [R|(a & rest & Na & Fa & ->)].
  - rewrite (parseReuseEntry_none _ R). cbn [fst snd].
    split; split; auto.
  - rewrite (parseReuseEntry_app _ _ Na Fa). cbn [fst snd]. split; split.
    + intros H. contradiction.
    + intros [F|[rest' E]].
      * exfalso. clear -F Na. induction a as [|c a IH].
        -- contradiction.
        -- cbn [String.append] in F. apply Count_cons_free in F.
           destruct F as [_ F]. destruct a as [|d a].
           ++ cbn in F. unfold free_of in F. cbn in F. discriminate.
           ++ apply IH; [discriminate|exact F].
      * exfalso. destruct a as [|c a]; [contradiction|].
        cbn [String.append] in E. inversion E; subst.
        apply Count_cons_free in Fa. destruct Fa as [Fa _].
        rewrite Ascii.eqb_refl in Fa. discriminate.
    + intros H. exfalso. exact (Split_nonempty _ _ H).
    + intros H. contradiction.
Qed.

Lemma parseReuseEntry_reject_witness :
  fst (parseReuseEntry ":10.0.0.1") = EmptyString /\
  fst (parseReuseEntry "lxd") = EmptyString.
Proof.
  split.
  - apply (proj2 (proj1 (parseReuseEntry_reject ":10.0.0.1"))).
    right. exists "10.0.0.1". reflexivity.
  - apply (proj2 (proj1 (parseReuseEntry_reject "lxd"))).
    left. reflexivity.
Defined.

(* ------------------------------------------------------------------ *)
(** ** The password keeps every random byte *)

Lemma unhex_byte (c : byte) :
  Byte.of_N (16 * hex_value (digit (N.shiftr (Byte.to_N c) 4)) +
             hex_value (digit (N.land (Byte.to_N c) 15))) = Some c.
Proof. destruct c; vm_compute; reflexivity. Qed.

Lemma unhex_Sprintf_x (buf : list byte) :
  unhex (Sprintf_x buf) = map Some buf.
Proof.
  induction buf as [|c buf IH]; [reflexivity|].
  cbn [Sprintf_x unhex map]. rewrite unhex_byte, IH. reflexivity.
Qed.

Lemma map_Some_inj {A} (l1 l2 : list A) :
  map Some l1 = map Some l2 -> l1 = l2.
Proof.
  revert l2. induction l1 as [|a l1 IH]; intros [|b l2] H;
    try discriminate; [reflexivity|].
  cbn [map] in H. inversion H; subst. f_equal. apply IH. assumption.
Qed.

(** X11. The hexadecimal password loses nothing: reading its digits
    back two by two gives the bytes of the buffer, so two different
    buffers never give the same password. *)
Theorem Sprintf_x_roundtrip (buf : list byte) :
  unhex (Sprintf_x buf) = map Some buf /\
  (forall buf', Sprintf_x buf = Sprintf_x buf' -> buf = buf').
Proof.
  split; [apply unhex_Sprintf_x|].
  intros buf' H. apply map_Some_inj.
  rewrite <- !unhex_Sprintf_x, H. reflexivity.
Qed.

Lemma Sprintf_x_roundtrip_witness :
  [xde; xad; xbe; xef] = [xde; xad; xbe; xef].
Proof.
  apply (proj2 (Sprintf_x_roundtrip [xde; xad; xbe; xef])).
  reflexivity.
Defined.

(* ------------------------------------------------------------------ *)
(** ** run: the errors on the way to Start *)

(** X12. When [NewFilter] turns the patterns down, [run] returns its
    error as it is, and stops there: the project is not loaded, and
    neither [Jobs] nor [Start] is called. *)
Theorem run_NewFilter_fails (f : flag.t) (w : World) (sched : list Action)
    (password : string) (e : error) :
  modeCheck f = None ->
  snd (mkPassword f w) = Next password ->
  flag.args f <> [] ->
  NewFilter w (flag.args f) = Err e ->
  run f w sched =
  (prelude f ++ fst (mkPassword f w) ++ [EvNewFilter (flag.args f)],
   Some (Some e)).
Proof.
  intros Hm Hp Ha Hn. unfold run. rewrite run_seq_unfold.
  unfold run_seq_stages. rewrite Hm.
  destruct (mkPassword f w) as [t1 o1]. cbn [fst snd] in *. subst o1.
  rewrite (mkFilter_some f w Ha), Hn. reflexivity.
Qed.

Lemma run_NewFilter_fails_witness :
  run filtering world_badfilter [MainStep] =
  (prelude filtering ++ fst (mkPassword filtering world_badfilter) ++
     [EvNewFilter ["lxd:"]],
   Some (Some "invalid filter")).
Proof.
  apply (run_NewFilter_fails filtering world_badfilter [MainStep]
           "deadbeef01234567" "invalid filter");
    try reflexivity.
  discriminate.
Defined.

(** X13. When [Load] fails, [run] returns its error as it is, after the
    password and the filter were made; neither [Jobs] nor [Start] is
    called, with or without -list. *)
Theorem run_Load_fails (f : flag.t) (w : World) (sched : list Action)
    (password : string) (filter : option Filter) (e : error) :
  modeCheck f = None ->
  snd (mkPassword f w) = Next password ->
  snd (mkFilter f w) = Next filter ->
  Load w "." = Err e ->
  run f w sched = (loading f w, Some (Some e)).
Proof.
  intros Hm Hp Hf Hl. unfold run, loading. rewrite run_seq_unfold.
  unfold run_seq_stages. rewrite Hm, Hl.
  destruct (mkPassword f w) as [t1 o1]. cbn [fst snd] in *. subst o1.
  destruct (mkFilter f w) as [t2 o2]. cbn [fst snd] in *. subst o2.
  reflexivity.
Qed.

Lemma run_Load_fails_witness :
  run listing world_noload [] =
    (loading listing world_noload, Some (Some "cannot load project file")).
Proof.
  apply (run_Load_fails listing world_noload [] "deadbeef01234567" None
           "cannot load project file"); reflexivity.
Defined.

(** X14. When [Start] fails, [run] returns its error as it is, under
    every schedule: no signal channel is registered, no goroutine is
    started, [Wait] and [Stop] are not called. *)
Theorem run_Start_fails (f : flag.t) (w : World) (sched : list Action)
    (password : string) (filter : option Filter) (project : Project)
    (e : error) :
  Loaded f w password filter project ->
  flag.list f = false ->
  Start w (installHook f project)
    (coerceReuse (mkOptions f password filter)) = Err e ->
  run f w sched =
  (loading f w ++
     [EvStart (installHook f project)
        (coerceReuse (mkOptions f password filter))],
   Some (Some e)).
Proof.
  intros L Hl HS. unfold run.
  rewrite (run_seq_Loaded _ _ _ _ _ L), Hl. cbv zeta. rewrite HS.
  reflexivity.
Qed.

Lemma run_Start_fails_witness :
  run defaults world_nostart [Interrupt; GoStep; GoStep; MainStep] =
  (loading defaults world_nostart ++
     [EvStart (installHook defaults project0)
        (coerceReuse (mkOptions defaults "deadbeef01234567" None))],
   Some (Some "cannot allocate")).
Proof.
  apply (run_Start_fails defaults world_nostart
           [Interrupt; GoStep; GoStep; MainStep]
           "deadbeef01234567" None project0 "cannot allocate").
  - repeat split; reflexivity.
  - reflexivity.
  - reflexivity.
Defined.

(** X15. [run] asks the random source for bytes exactly when -pass is
    empty and the run-mode check has passed, and then for eight. *)
Theorem run_reads_random (f : flag.t) (w : World) (sched : list Action)
    (n : nat) :
  In (EvRandRead n) (fst (run f w sched)) <->
  n = 8 /\ flag.pass f = "" /\ modeCheck f = None.
Proof.
  split.
  - intros H. apply run_In_seq in H; [|reflexivity].
    rewrite run_seq_unfold in H. unfold run_seq_stages in H.
    pose proof (mkPassword_trace f w) as T1.
    pose proof (mkFilter_trace f w) as T2.
    destruct (modeCheck f); cbn [fst] in H; [in_cases H|].
    assert (K : In (EvRandRead n) (fst (mkPassword f w)) ->
                n = 8 /\ flag.pass f = "" /\ None = (None : option error)).
    { rewrite T1. destruct (String.eqb_spec (flag.pass f) "").
      - intros [E|[]]. inversion E. auto.
      - intros []. }
    destruct (mkPassword f w) as [t1 [pw|e]]; cbn [fst snd] in *.
    2:{ in_cases H. apply K, H. }
    destruct (mkFilter f w) as [t2 [flt|e]]; cbn [fst snd] in *; subst t2.
    2:{ apply in_app_or in H. destruct H as [H|H]; [in_cases H|].
        apply in_app_or in H. destruct H as [H|H]; [apply K, H|].
        in_cases H. }
    assert (R : forall rest,
              (forall ev, In ev rest -> ev <> EvRandRead n) ->
              In (EvRandRead n)
                 (prelude f ++ t1 ++
                  match flag.args f with
                  | [] => []
                  | _ :: _ => [EvNewFilter (flag.args f)]
                  end ++ rest) ->
              n = 8 /\ flag.pass f = "" /\ None = (None : option error)).
    { intros rest HR HI.
      apply in_app_or in HI. destruct HI as [HI|HI]; [in_cases HI|].
      apply in_app_or in HI. destruct HI as [HI|HI]; [apply K, HI|].
      apply in_app_or in HI. destruct HI as [HI|HI]; [in_cases HI|].
      exfalso. exact (HR _ HI eq_refl). }
    destruct (Load w "."); cbn [fst] in H.
    2:{ apply (fun HR => R _ HR H).
        intros ev Hev; in_cases Hev; subst; discriminate. }
    destruct (flag.list f).
    + destruct (Jobs _ _); cbn [fst] in H;
        apply (fun HR => R _ HR H);
        intros ev Hev; in_cases Hev; subst; discriminate.
    + destruct (Start w _ _); cbn [fst] in H;
        apply (fun HR => R _ HR H);
        intros ev Hev; in_cases Hev; subst; discriminate.
  - intros (-> & Hp & Hm). apply run_seq_In.
    rewrite run_seq_unfold. unfold run_seq_stages. rewrite Hm.
    pose proof (mkPassword_trace f w) as T1. rewrite Hp in T1.
    cbn [String.eqb] in T1.
    assert (P : forall rest, In (EvRandRead 8)
                  (prelude f ++ fst (mkPassword f w) ++ rest)).
    { intros rest. rewrite T1. apply in_or_app. right. left. reflexivity. }
    destruct (mkPassword f w) as [t1 [pw|e]]; cbn [fst] in *.
    2:{ rewrite <- (app_nil_r t1). apply P. }
    destruct (mkFilter f w) as [t2 [flt|e]]; cbn [fst]; [|apply P].
    destruct (Load w "."); cbn [fst]; [|apply P].
    destruct (flag.list f).
    + destruct (Jobs _ _); cbn [fst]; apply P.
    + destruct (Start w _ _); cbn [fst]; apply P.
Qed.

Lemma run_reads_random_witness :
  In (EvRandRead 8) (fst (run defaults world0 [])) /\
  ~ In (EvRandRead 8) (fst (run (with_pass "s3cret" defaults) world0 [])).
Proof.
  split.
  - apply (proj2 (run_reads_random defaults world0 [] 8)).
    repeat split; reflexivity.
  - intros H.
    apply (proj1 (run_reads_random (with_pass "s3cret" defaults) world0
                    [] 8)) in H.
    destruct H as (_ & H & _). discriminate.
Defined.

(* ------------------------------------------------------------------ *)
(** ** run: what is called, and how often *)

Lemma occurrences_app (kind : Event -> bool) (t1 t2 : list Event) :
  occurrences kind (t1 ++ t2) = occurrences kind t1 + occurrences kind t2.
Proof. unfold occurrences. rewrite filter_app, length_app. reflexivity. Qed.

Lemma occ_mkPassword (kind : Event -> bool) (f : flag.t) (w : World) :
  kind (EvRandRead 8) = false ->
  occurrences kind (fst (mkPassword f w)) = 0.
Proof.
  intros H. rewrite mkPassword_trace.
  destruct (String.eqb (flag.pass f) ""); [|reflexivity].
  unfold occurrences. cbn [filter]. rewrite H. reflexivity.
Qed.

Lemma occ_mkFilter (kind : Event -> bool) (f : flag.t) (w : World) :
  (forall a, kind (EvNewFilter a) = false) ->
  occurrences kind (fst (mkFilter f w)) = 0.
Proof.
  intros H. rewrite mkFilter_trace.
  destruct (flag.args f); [reflexivity|].
  unfold occurrences. cbn [filter]. rewrite H. reflexivity.
Qed.

Lemma occ_printed (kind : Event -> bool) (jobs : list Job) :
  (forall s, kind (EvPrintln s) = false) ->
  occurrences kind (printed jobs) = 0.
Proof.
  intros H. induction jobs as [|job jobs IH]; [reflexivity|].
  unfold occurrences, printed in *. cbn [map filter]. rewrite H. exact IH.
Qed.

Lemma occ_threads (kind : Event -> bool) (runner : Runner)
    (sched : list Action) :
  (forall ev, thread_event ev = true -> kind ev = false) ->
  occurrences kind (trace (steps runner sched threads0)) = 0.
Proof.
  intros H. pose proof (steps_events runner sched threads0 eq_refl) as F.
  induction (trace (steps runner sched threads0)) as [|ev t IH];
    [reflexivity|].
  cbn [forallb] in F. apply andb_prop in F. destruct F as [F1 F2].
  unfold occurrences in *. cbn [filter]. rewrite (H ev F1). exact (IH F2).
Qed.

(** X16. In every run [Load] is called at most once, and [Jobs] and
    [Start] at most once between them, and only when [Load] was called:
    [Jobs] never without -list, [Start] never with it. *)
Theorem run_calls_once (f : flag.t) (w : World) (sched : list Action) :
  occurrences is_Load (fst (run f w sched)) <= 1 /\
  occurrences is_Start (fst (run f w sched)) +
    occurrences is_Jobs (fst (run f w sched)) <=
    occurrences is_Load (fst (run f w sched)) /\
  (flag.list f = true ->
     occurrences is_Start (fst (run f w sched)) = 0) /\
  (flag.list f = false ->
     occurrences is_Jobs (fst (run f w sched)) = 0).
Proof.
  pose proof (occ_mkPassword is_Load f w eq_refl) as PL.
  pose proof (occ_mkPassword is_Start f w eq_refl) as PS.
  pose proof (occ_mkPassword is_Jobs f w eq_refl) as PJ.
  pose proof (occ_mkFilter is_Load f w (fun _ => eq_refl)) as FL.
  pose proof (occ_mkFilter is_Start f w (fun _ => eq_refl)) as FS.
  pose proof (occ_mkFilter is_Jobs f w (fun _ => eq_refl)) as FJ.
  assert (TL : forall r, occurrences is_Load
                 (trace (steps r sched threads0)) = 0)
    by (intros r; apply occ_threads; intros [] E; try discriminate;
        reflexivity).
  assert (TS : forall r, occurrences is_Start
                 (trace (steps r sched threads0)) = 0)
    by (intros r; apply occ_threads; intros [] E; try discriminate;
        reflexivity).
  assert (TJ : forall r, occurrences is_Jobs
                 (trace (steps r sched threads0)) = 0)
    by (intros r; apply occ_threads; intros [] E; try discriminate;
        reflexivity).
  unfold run. rewrite run_seq_unfold. unfold run_seq_stages.
  destruct (modeCheck f).
  { cbn. repeat split; intros; lia. }
  destruct (mkPassword f w) as [t1 [pw|e]]; cbn [fst] in *.
  2:{ rewrite !occurrences_app, PL, PS, PJ. cbn. repeat split; intros; lia. }
  destruct (mkFilter f w) as [t2 [flt|e]]; cbn [fst] in *.
  2:{ rewrite !occurrences_app, PL, PS, PJ, FL, FS, FJ. cbn.
      repeat split; intros; lia. }
  destruct (Load w ".").
  2:{ cbn [fst]. rewrite !occurrences_app, PL, PS, PJ, FL, FS, FJ. cbn.
      repeat split; intros; lia. }
  destruct (flag.list f).
  - destruct (Jobs _ _) as [jobs|e]; cbn [fst];
      rewrite !occurrences_app, PL, PS, PJ, FL, FS, FJ;
      rewrite ?(occ_printed is_Load), ?(occ_printed is_Start),
        ?(occ_printed is_Jobs) by reflexivity;
      cbn; repeat split; intros; try discriminate; lia.
  - destruct (Start w _ _) as [r|e]; cbn [fst];
      rewrite !occurrences_app, PL, PS, PJ, FL, FS, FJ, ?TL, ?TS, ?TJ;
      cbn; repeat split; intros; try discriminate; lia.
Qed.

Lemma run_calls_once_witness :
  occurrences is_Start (fst (run listing world0 [MainStep])) = 0 /\
  occurrences is_Jobs (fst (run defaults world0 [MainStep])) = 0.
Proof.
  split.
  - apply (proj1 (proj2 (proj2 (run_calls_once listing world0
                                  [MainStep])))).
    reflexivity.
  - apply (proj2 (proj2 (proj2 (run_calls_once defaults world0
                                  [MainStep])))).
    reflexivity.
Defined.

(** X17. The coercion of [Reuse] changes no other option (putting the
    old [Reuse] back gives the options as they were), never turns [Reuse]
    off (options with [Reuse] set come out unchanged), and done twice is
    the same as done once. *)
Theorem coerceReuse_frame (o : Options.t) :
  Options.set_Reuse (Options.Reuse o) (coerceReuse o) = o /\
  (Options.Reuse o = true -> coerceReuse o = o) /\
  coerceReuse (coerceReuse o) = coerceReuse o.
Proof.
  destruct o as [pw flt reuse pid resend dbg nodbg sh shb sha ab rest disc
                   art logs seed rep gc].
  unfold coerceReuse. cbn [Options.Discard Options.ReusePid].
  destruct (disc && (pid =? 0)%Z) eqn:E.
  - cbn [Options.set_Reuse Options.Password Options.Filter Options.Reuse
         Options.ReusePid Options.Resend Options.Debug Options.NoDebug
         Options.Shell Options.ShellBefore Options.ShellAfter
         Options.Abend Options.Restore Options.Discard Options.Artifacts
         Options.Logs Options.Seed Options.Repeat Options.GarbageCollect].
    rewrite E. cbn. split; [reflexivity|]. split; [|reflexivity].
    intros ->. reflexivity.
  - cbn. rewrite E. auto.
Qed.

Lemma coerceReuse_frame_witness :
  coerceReuse (mkOptions (with_discard true defaults) "pw" None) =
  Options.set_Reuse true
    (mkOptions (with_discard true defaults) "pw" None) /\
  coerceReuse
    (Options.set_Reuse true
       (mkOptions (with_discard true defaults) "pw" None)) =
  Options.set_Reuse true
    (mkOptions (with_discard true defaults) "pw" None).
Proof.
  split; [reflexivity|].
  apply (proj1 (proj2 (coerceReuse_frame
           (Options.set_Reuse true
              (mkOptions (with_discard true defaults) "pw" None))))).
  reflexivity.
Defined.

(* ------------------------------------------------------------------ *)
(** ** The two threads: interrupts, Stop and the answer of Wait *)

Lemma stop_called_snoc (t : list Event) (ev : Event) :
  stop_called (t ++ [ev]) = stop_called t || is_Stop ev.
Proof.
  unfold stop_called. rewrite existsb_app. cbn [existsb].
  rewrite orb_false_r. reflexivity.
Qed.

Lemma occurrences_snoc (kind : Event -> bool) (t : list Event) (ev : Event) :
  occurrences kind (t ++ [ev]) =
  occurrences kind t + (if kind ev then 1 else 0).
Proof.
  rewrite occurrences_app. unfold occurrences. cbn [filter].
  destruct (kind ev); reflexivity.
Qed.

Lemma In_snoc_other {A} (a x : A) (t : list A) :
  x <> a -> In a (t ++ [x]) -> In a t.
Proof.
  intros N H. apply in_app_or in H. destruct H as [H|[H|[]]];
    [exact H|contradiction].
Qed.

Lemma Sync_threads0 (runner : Runner) : Sync runner threads0.
Proof.
  constructor; cbn; auto. intros e H. discriminate.
Qed.

(** A state with one more event that is not a return of [Wait] and does
    not move the main thread keeps what is known of [Wait]. *)
Lemma Sync_ret_snoc (runner : Runner) (t : list Event) (ev : Event)
    (e : option error) :
  is_WaitReturn ev = false ->
  (exists t1 t2,
     t = t1 ++ EvWaitReturn e :: t2 /\
     e = Wait runner (stop_called t1) /\
     occurrences is_WaitReturn t = 1) ->
  exists t1 t2,
    t ++ [ev] = t1 ++ EvWaitReturn e :: t2 /\
    e = Wait runner (stop_called t1) /\
    occurrences is_WaitReturn (t ++ [ev]) = 1.
Proof.
  intros K (t1 & t2 & -> & He & Ho).
  exists t1, (t2 ++ [ev]). split; [|split; [exact He|]].
  - rewrite <- app_assoc. reflexivity.
  - rewrite occurrences_snoc, Ho, K. reflexivity.
Qed.

Lemma Sync_step (runner : Runner) (s : Threads) (a : Action) :
  Sync runner s -> Sync runner (step runner s a).
Proof.
  intros I. destruct a; cbn [step].
  - (* an interrupt arrives *)
    constructor; cbn [trace goPc sigch stopped mainPc].
    + intros _ H. destruct (Nat.ltb_spec (sigch s) 1); [discriminate|lia].
    + rewrite stop_called_snoc, orb_false_r. apply I.
    + intros H. rewrite occurrences_snoc, (sync_noret _ _ I H).
      reflexivity.
    + intros e H. apply Sync_ret_snoc; [reflexivity|].
      exact (sync_ret _ _ I e H).
  - (* the goroutine moves *)
    destruct (goPc s) eqn:G; [destruct (sigch s) eqn:C| |]; try exact I.
    + constructor; cbn [trace goPc sigch stopped mainPc]; try apply I.
      discriminate.
    + constructor; cbn [trace goPc sigch stopped mainPc].
      * discriminate.
      * rewrite stop_called_snoc. cbn. rewrite orb_true_r. reflexivity.
      * intros H. rewrite occurrences_snoc, (sync_noret _ _ I H).
        reflexivity.
      * intros e H. apply Sync_ret_snoc; [reflexivity|].
        exact (sync_ret _ _ I e H).
  - (* the main thread moves *)
    destruct (mainPc s) eqn:M; try exact I.
    + constructor; cbn [trace goPc sigch stopped mainPc].
      * intros G C H. apply In_snoc_other in H; [|discriminate].
        exact (sync_pending _ _ I G C H).
      * rewrite stop_called_snoc, orb_false_r. apply I.
      * intros _. rewrite occurrences_snoc, (sync_noret _ _ I).
        -- reflexivity.
        -- intros e. rewrite M. discriminate.
      * intros e H. discriminate.
    + constructor; cbn [trace goPc sigch stopped mainPc].
      * intros G C H. apply In_snoc_other in H; [|discriminate].
        exact (sync_pending _ _ I G C H).
      * rewrite stop_called_snoc, orb_false_r. apply I.
      * intros H. exfalso. exact (H _ eq_refl).
      * intros e H. inversion H; subst.
        exists (trace s), []. split; [reflexivity|]. split.
        -- rewrite (sync_stopped _ _ I). reflexivity.
        -- rewrite occurrences_snoc, (sync_noret _ _ I).
           ++ reflexivity.
           ++ intros e. rewrite M. discriminate.
Qed.

Lemma Sync_steps (runner : Runner) (sched : list Action) (s : Threads) :
  Sync runner s -> Sync runner (steps runner sched s).
Proof.
  revert s. induction sched as [|a sched IH]; intros s I; [exact I|].
  cbn [steps fold_left]. apply IH, Sync_step, I.
Qed.

(** A step only adds to the trace. *)
Lemma step_extends (runner : Runner) (s : Threads) (a : Action) :
  exists more, trace (step runner s a) = trace s ++ more.
Proof.
  destruct a; cbn [step].
  - eexists. reflexivity.
  - destruct (goPc s); [destruct (sigch s)| |]; cbn [trace];
      try (exists []; rewrite app_nil_r; reflexivity);
      eexists; reflexivity.
  - destruct (mainPc s); cbn [trace];
      try (exists []; rewrite app_nil_r; reflexivity);
      eexists; reflexivity.
Qed.

Lemma steps_extends (runner : Runner) (sched : list Action) (s : Threads) :
  exists more, trace (steps runner sched s) = trace s ++ more.
Proof.
  revert s. induction sched as [|a sched IH]; intros s.
  - exists []. rewrite app_nil_r. reflexivity.
  - cbn [steps fold_left].
    destruct (IH (step runner s a)) as [m1 E1].
    destruct (step_extends runner s a) as [m2 E2].
    exists (m2 ++ m1). unfold steps in E1. rewrite E1, E2, app_assoc.
    reflexivity.
Qed.

(** An interrupt of the schedule is in the trace. *)
Lemma interrupt_recorded (runner : Runner) (sched : list Action)
    (s : Threads) :
  In Interrupt sched -> In EvInterrupt (trace (steps runner sched s)).
Proof.
  revert s. induction sched as [|a sched IH]; intros s H; [destruct H|].
  destruct H as [H|H].
  - subst a. cbn [steps fold_left].
    destruct (steps_extends runner sched (step runner s Interrupt))
      as [more E].
    unfold steps in E. rewrite E. cbn [step trace].
    apply in_or_app. left. apply in_or_app. right. left. reflexivity.
  - cbn [steps fold_left]. apply IH, H.
Qed.

(** Without an interrupt in the schedule there is none in the trace. *)
Lemma no_interrupt (runner : Runner) (sched : list Action) (s : Threads) :
  ~ In Interrupt sched -> ~ In EvInterrupt (trace s) ->
  ~ In EvInterrupt (trace (steps runner sched s)).
Proof.
  revert s. induction sched as [|a sched IH]; intros s N T; [exact T|].
  cbn [steps fold_left]. apply IH.
  - intros H. apply N. right. exact H.
  - destruct a; cbn [step].
    + contradiction N. left. reflexivity.
    + destruct (goPc s); [destruct (sigch s)| |]; cbn [trace]; auto.
      intros H. apply In_snoc_other in H; [auto|discriminate].
    + destruct (mainPc s); cbn [trace]; auto;
        intros H; (apply In_snoc_other in H; [auto|discriminate]).
Qed.

Lemma stop_called_In (t : list Event) :
  stop_called t = true <-> In EvStop t.
Proof.
  unfold stop_called. rewrite existsb_exists. split.
  - intros (ev & H & E). destruct ev; try discriminate. exact H.
  - intros H. exists EvStop. auto.
Qed.

(** X18. Once an interrupt has arrived, the goroutine needs its two
    moves (receiving from the channel, calling [Stop]) and no more:
    after them [runner.Stop()] has been called, exactly once, however
    many interrupts there were and whatever else happened. *)
Theorem interrupt_stops (runner : Runner) (sched : list Action) :
  In Interrupt sched ->
  stops (trace (steps runner (sched ++ [GoStep; GoStep]) threads0)) = 1 /\
  stopped (steps runner (sched ++ [GoStep; GoStep]) threads0) = true.
Proof.
  intros H. rewrite steps_app.
  set (s := steps runner sched threads0).
  pose proof (Sync_steps runner sched threads0 (Sync_threads0 runner)) as Y.
  pose proof (interrupt_recorded runner sched threads0 H) as R.
  fold s in Y, R.
  pose proof (Inv_steps runner (sched ++ [GoStep; GoStep]) threads0
                (Inv_threads0 runner)) as I.
  rewrite steps_app in I. fold s in I.
  assert (G : goPc (steps runner [GoStep; GoStep] s) = GDone).
  { cbn [steps fold_left]. destruct (goPc s) eqn:G.
    - destruct (sigch s) eqn:C.
      + exfalso. exact (sync_pending _ _ Y G C R).
      + cbn [step]. rewrite G, C. cbn [step goPc]. reflexivity.
    - cbn [step]. rewrite G. cbn [step goPc]. reflexivity.
    - cbn [step]. rewrite G. cbn [step]. rewrite G. exact G. }
  rewrite (inv_once _ _ I), (inv_stopped _ _ I), G. auto.
Qed.

Lemma interrupt_stops_witness :
  stops (trace (steps runner0
                  ([Interrupt; Interrupt; MainStep; Interrupt] ++
                   [GoStep; GoStep]) threads0)) = 1 /\
  stopped (steps runner0
             ([Interrupt; Interrupt; MainStep; Interrupt] ++
              [GoStep; GoStep]) threads0) = true.
Proof.
  apply (interrupt_stops runner0
           [Interrupt; Interrupt; MainStep; Interrupt]).
  left. reflexivity.
Defined.

(** X19. A campaign that no interrupt reaches never has [Stop] called,
    and what [run] returns is the answer of [Wait] on a runner that was
    not stopped. *)
Theorem uninterrupted_run (f : flag.t) (w : World) (sched : list Action)
    (t : list Event) (runner : Runner) :
  run_seq f w = (t, Next runner) ->
  ~ In Interrupt sched ->
  stops (trace (steps runner sched threads0)) = 0 /\
  forall e, snd (run f w sched) = Some e -> e = Wait runner false.
Proof.
  intros HS N.
  set (s := steps runner sched threads0).
  pose proof (Sync_steps runner sched threads0 (Sync_threads0 runner)) as Y.
  pose proof (Inv_steps runner sched threads0 (Inv_threads0 runner)) as I.
  pose proof (no_interrupt runner sched threads0 N (fun H => H)) as NI.
  fold s in Y, I, NI.
  assert (NS : ~ In EvStop (trace s)).
  { intros H. apply in_split in H. destruct H as (t1 & t2 & E).
    apply NI. rewrite E. apply in_or_app. left.
    exact (inv_stop _ _ I _ _ E). }
  split.
  - rewrite (inv_once _ _ I).
    pose proof (sync_stopped _ _ Y) as S1.
    pose proof (inv_stopped _ _ I) as S2.
    destruct (goPc s); try reflexivity.
    exfalso. apply NS, stop_called_In. rewrite <- S1, S2. reflexivity.
  - intros e H. unfold run in H. rewrite HS in H. cbn [snd] in H.
    fold s in H. unfold mainResult in H.
    destruct (mainPc s) eqn:M; try discriminate. inversion H; subst.
    destruct (sync_ret _ _ Y e M) as (t1 & t2 & E & He & _).
    rewrite He. f_equal.
    destruct (stop_called t1) eqn:C; [|reflexivity].
    exfalso. apply NS. rewrite E. apply in_or_app. left.
    apply stop_called_In, C.
Qed.

Lemma uninterrupted_run_witness :
  stops (trace (steps runner0 [GoStep; MainStep; GoStep; MainStep]
                  threads0)) = 0 /\
  forall e,
    snd (run defaults world0 [GoStep; MainStep; GoStep; MainStep]) =
      Some e ->
    e = Wait runner0 false.
Proof.
  apply (uninterrupted_run defaults world0
           [GoStep; MainStep; GoStep; MainStep]
           (fst (run_seq defaults world0)) runner0 eq_refl).
  intros [H|[H|[H|[H|[]]]]]; discriminate.
Defined.

(** X20. [Wait] comes back once, and what [run] returns is its answer
    on the runner as it was at that moment: stopped exactly when [Stop]
    had been called before [Wait] came back. A [Stop] that comes later
    changes nothing of the result. *)
Theorem wait_answer (f : flag.t) (w : World) (sched : list Action)
    (t : list Event) (runner : Runner) (e : option error) :
  run_seq f w = (t, Next runner) ->
  snd (run f w sched) = Some e ->
  exists t1 t2,
    trace (steps runner sched threads0) = t1 ++ EvWaitReturn e :: t2 /\
    e = Wait runner (stop_called t1) /\
    occurrences is_WaitReturn (trace (steps runner sched threads0)) = 1.
Proof.
  intros HS H.
  pose proof (Sync_steps runner sched threads0 (Sync_threads0 runner)) as Y.
  unfold run in H. rewrite HS in H. cbn [snd] in H.
  unfold mainResult in H.
  destruct (mainPc (steps runner sched threads0)) eqn:M; try discriminate.
  inversion H; subst. exact (sync_ret _ _ Y e M).
Qed.

Lemma wait_answer_witness :
  exists t1 t2,
    trace (steps runner0
             [Interrupt; MainStep; MainStep; GoStep; GoStep] threads0) =
      t1 ++ EvWaitReturn None :: t2 /\
    None = Wait runner0 (stop_called t1) /\
    occurrences is_WaitReturn
      (trace (steps runner0
                [Interrupt; MainStep; MainStep; GoStep; GoStep]
                threads0)) = 1.
Proof.
  apply (wait_answer defaults world0
           [Interrupt; MainStep; MainStep; GoStep; GoStep]
           (fst (run_seq defaults world0)) runner0 None eq_refl).
  reflexivity.
Defined.

Lemma length_append (a b : string) :
  String.length (a ++ b)%string = String.length a + String.length b.
Proof.
  induction a as [|c a IH]; [reflexivity|].
  cbn [String.append String.length]. rewrite IH. reflexivity.
Qed.

(** The answer of [Index] is a position inside the string, so the two
    slices of [parseReuseEntry] are in range. *)
Lemma Index_range (sep : ascii) (s : string) :
  (Index sep s < Z.of_nat (String.length s))%Z.
Proof.
  destruct (Index_spec sep s) as [[H _]|(a & b & -> & _ & H)]; rewrite H.
  - lia.
  - rewrite length_append. cbn [String.length]. lia.
Qed.
